(** * Photo gallery: metadata stores and migration

    A shallow embedding of the three programs of the repository:

    - [Project2/partA_dynamodb/app.py]  (module [Dynamo]):  the gallery on a
      key-value store;
    - [Project2/partB_mongodb/app.py]   (module [Mongo]):   the gallery on a
      document store;
    - [Project2/partC_migration/migrate_dynamo_to_mongo.py] (module
      [Migration]): the copy of the first store into the second.

    Strings are [string]s over the ASCII repertoire.  A DynamoDB table is a
    finite map from its hash key to the item ([gmap]); a table keeps no
    history, so the order in which a scan enumerates it is a function of
    its content.  A MongoDB collection is the list of its documents in
    natural order, [insert_one] appending at the end.  The S3 bucket is a
    finite map from object key to object.  Every handler is a function of
    the session, the request and the stores, and returns the response, the
    flashed messages, the trace of store writes and blob accesses, and the
    stores afterwards.  The server-assigned [_id] of a document is no part
    of the records and is left out; it is why a replacement, which carries
    none, is never taken by the server for a copy of the stored document.
    The stores are modelled on the requests they accept: [Dynamo] states
    the limits of the key-value service on keys and items. *)

From Stdlib Require Import Ascii.
From Stdlib Require String.
From stdpp Require Import gmap strings list fin_maps sorting pretty.

(** * Python built-ins used by the programs *)

Module Py.

(** [str.isascii]: every character is below 128.  The functions of this
    module are the built-ins of Python on such strings; beyond them
    [str.lower] folds more letters and [str.strip] removes more spaces than
    [lower] and [strip] below, so a statement that compares a string in
    lower case with the caseless match of another engine is made of ASCII
    strings only. *)
Fixpoint is_ascii (s : string) : bool :=
  match s with
  | EmptyString => true
  | String c s' => Nat.ltb (nat_of_ascii c) 128 && is_ascii s'
  end.

(** [str.lower] on the ASCII repertoire: A-Z are mapped to a-z. *)
Definition is_upper (c : ascii) : bool :=
  let n := nat_of_ascii c in Nat.leb 65 n && Nat.leb n 90.

Definition lower_char (c : ascii) : ascii :=
  if is_upper c then ascii_of_nat (nat_of_ascii c + 32) else c.

Fixpoint lower (s : string) : string :=
  match s with
  | EmptyString => EmptyString
  | String c s' => String (lower_char c) (lower s')
  end.

(** The characters [str.strip] removes on the ASCII repertoire: tab, line
    feed, vertical tab, form feed, carriage return, the four separators
    28-31 and the space. *)
Definition is_space (c : ascii) : bool :=
  let n := nat_of_ascii c in
  (Nat.leb 9 n && Nat.leb n 13) || (Nat.leb 28 n && Nat.leb n 32).

Fixpoint lstrip (s : string) : string :=
  match s with
  | EmptyString => EmptyString
  | String c s' => if is_space c then lstrip s' else s
  end.

Fixpoint rstrip (s : string) : string :=
  match s with
  | EmptyString => EmptyString
  | String c s' =>
      match rstrip s' with
      | EmptyString => if is_space c then EmptyString else String c EmptyString
      | r => String c r
      end
  end.

Definition strip (s : string) : string := rstrip (lstrip s).

(** Truth value of a string: [not s] holds of the empty string only. *)
Definition truthy (s : string) : bool :=
  match s with EmptyString => false | String _ _ => true end.

Fixpoint startswith (s p : string) : bool :=
  match p, s with
  | EmptyString, _ => true
  | String _ _, EmptyString => false
  | String a p', String b s' => bool_decide (a = b) && startswith s' p'
  end.

(** [q in s]: [q] occurs in [s] as a contiguous substring. *)
Fixpoint contains (s q : string) : bool :=
  startswith s q ||
  match s with
  | EmptyString => false
  | String _ s' => contains s' q
  end.

(** [s.rsplit(sep, 1)] for a one-character separator: split at the last
    occurrence of [sep], or [[s]] when there is none. *)
Fixpoint rsplit1 (s : string) (sep : ascii) : list string :=
  match s with
  | EmptyString => [EmptyString]
  | String c s' =>
      match rsplit1 s' sep with
      | [h; t] => [String c h; t]
      | _ => if bool_decide (c = sep) then [EmptyString; s'] else [s]
      end
  end.

(** [l.sort(key=key, reverse=True)] on string keys: a stable sort into
    descending order; elements with equal keys keep their relative order. *)
Section sort.
Context {A : Type} (key : A → string).

Fixpoint insert_desc (x : A) (l : list A) : list A :=
  match l with
  | [] => [x]
  | y :: l' =>
      if String.ltb (key x) (key y) then y :: insert_desc x l' else x :: l
  end.

Definition sort_reverse (l : list A) : list A := foldr insert_desc [] l.

End sort.

End Py.

(** * Records *)

(** An item of the users table and a document of the users collection. *)
Module User.

Record t := mk {
  username : string;
  password : string;
  email : string;
  created_at : string
}.

#[global] Instance eq_dec : EqDecision t.
Proof. solve_decision. Defined.

End User.

(** An item of the photos table and a document of the photos collection. *)
Module Photo.

Record t := mk {
  photo_id : string;
  username : string;
  filename : string;
  s3_key : string;
  tags : string;
  description : string;
  uploaded_at : string
}.

#[global] Instance eq_dec : EqDecision t.
Proof. solve_decision. Defined.

End Photo.

(** * The blob store *)

Module S3.

Record object := mk { Body : string; ContentType : string }.

End S3.

(** * The web layer, as far as the handlers use it *)

Module Flask.

Inductive method := GET | POST.

(** What a handler returns.  [internal_error] stands for an exception that
    leaves the handler. *)
Inductive response :=
| redirect (endpoint : string)
| render_template (template : string) (photos : list Photo.t) (arg : string)
| send_file (body : string) (download_name : string)
| internal_error.

(** An uploaded file of [request.files]. *)
Record FileStorage := mkfile {
  filename : string;
  stream : string;
  content_type : string
}.

(** [bool(f)] of a [FileStorage] is [bool(f.filename)]. *)
Definition file_truthy (f : FileStorage) : bool := Py.truthy (filename f).

(** The form of [/register]: [form["username"]], [form["password"]] and
    [form.get("email", "")]. *)
Record register_form := mkreg {
  form_username : string;
  form_password : string;
  form_email : option string
}.

(** The form of [/login]: [form["username"]] and [form["password"]]. *)
Record login_form := mklogin {
  login_username : string;
  login_password : string
}.

(** The form of [/upload]: [files.getlist("photos")], [form.get("tags", "")]
    and [form.get("description", "")]. *)
Record upload_form := mkupload {
  form_photos : list FileStorage;
  form_tags : option string;
  form_description : option string
}.

(** Writes to the metadata store and accesses to the blob store, in the
    order a handler performs them. *)
Inductive io :=
| S3Upload (key : string)
| S3Get (key : string)
| S3Delete (key : string)
| PutUser (username : string)
| PutPhoto (photo_id : string)
| DeletePhoto (photo_id : string).

Record result (W : Type) := mkresult {
  response_of : response;
  flashed : list (string * string);
  trace : list io;
  stores_after : W
}.

Arguments mkresult {W} _ _ _ _.
Arguments response_of {W} _.
Arguments flashed {W} _.
Arguments trace {W} _.
Arguments stores_after {W} _.

(** A response that touches no store. *)
Definition reply {W : Type} (r : response) (fl : list (string * string)) (w : W)
  : result W := mkresult r fl [] w.

(** The photos a response shows. *)
Definition shown (r : response) : list Photo.t :=
  match r with
  | render_template _ photos _ => photos
  | _ => []
  end.

End Flask.

Import Flask.

(** * Part A: the gallery on DynamoDB *)

Module Dynamo.

(** ** The table resource *)

Section table.
Context {T : Type}.

Definition get_item (Key : string) (tbl : gmap string T) : option T :=
  tbl !! Key.

(** [put_item] writes the item under the value of its hash-key attribute,
    replacing the item stored under that key, if any. *)
Definition put_item (hash_key : T → string) (Item : T) (tbl : gmap string T)
  : gmap string T := <[hash_key Item := Item]> tbl.

Definition delete_item (Key : string) (tbl : gmap string T) : gmap string T :=
  delete Key tbl.

(** What follows the item of key [k] in an enumeration. *)
Fixpoint after_key (k : string) (l : list (string * T)) : list (string * T) :=
  match l with
  | [] => []
  | kv :: l' => if decide (kv.1 = k) then l' else after_key k l'
  end.

Record scan_output := mkscan {
  Items : list T;
  LastEvaluatedKey : option string
}.

(** One [scan] request.  The service reads at most [limit] items (the
    bound on the data read by one request) after [ExclusiveStartKey], applies
    the filter to what it read, and returns as [LastEvaluatedKey] the key of
    the last item read when items remain. *)
Definition scan (limit : nat) (tbl : gmap string T)
    (FilterExpression : T → Prop) `{!∀ x, Decision (FilterExpression x)}
    (ExclusiveStartKey : option string) : scan_output :=
  let all := map_to_list tbl in
  let rest :=
    match ExclusiveStartKey with
    | None => all
    | Some k => after_key k all
    end in
  let page := take limit rest in
  {| Items := filter FilterExpression page.*2;
     LastEvaluatedKey :=
       match drop limit rest with
       | [] => None
       | _ :: _ => fst <$> last page
       end |}.

End table.

Arguments scan_output : clear implicits.

(** ** Limits of the service

    The service refuses a request whose hash key is longer than 2048 bytes,
    and the write of an item larger than 400 KB, the size of an item being
    the sum of the lengths of its attribute names and of its values.
    [put_item] above is the write the service performs on a request it
    accepts; a statement that a record is stored is made of records within
    these limits. *)
Definition key_accepted (k : string) : Prop :=
  (Z.of_nat (String.length k) ≤ 2048)%Z.

Definition user_item_bytes (u : User.t) : Z :=
  Z.of_nat
    (String.length "username" + String.length (User.username u)
     + String.length "password" + String.length (User.password u)
     + String.length "email" + String.length (User.email u)
     + String.length "created_at" + String.length (User.created_at u)).

Definition user_accepted (u : User.t) : Prop :=
  key_accepted (User.username u) ∧ (user_item_bytes u ≤ 409600)%Z.

(** ** Bootstrap *)

(** The tables of the account, by name, each with its hash-key attribute.
    [create_table] raises on a name in use: [None]. *)
Definition create_table (TableName hash_key : string)
    (tables : gmap string string) : option (gmap string string) :=
  match tables !! TableName with
  | Some _ => None
  | None => Some (<[TableName := hash_key]> tables)
  end.

(** [_init_tables], for the configured names [TBL_USERS] and [TBL_PHOTOS].
    The set [existing] is read once, before any table is created. *)
Definition _init_tables (TBL_USERS TBL_PHOTOS : string)
    (tables : gmap string string) : option (gmap string string) :=
  let existing := dom tables in
  match
    (if decide (TBL_USERS ∉ existing)
     then create_table TBL_USERS "username" tables
     else Some tables)
  with
  | None => None
  | Some tables1 =>
      if decide (TBL_PHOTOS ∉ existing)
      then create_table TBL_PHOTOS "photo_id" tables1
      else Some tables1
  end.

(** ** The application *)

Record stores := mkstores {
  users_tbl : gmap string User.t;
  photos_tbl : gmap string Photo.t;
  s3 : gmap string S3.object
}.

Definition ALLOWED_EXT : gset string :=
  {[ "png"; "jpg"; "jpeg"; "gif"; "bmp"; "webp" ]}.

Definition _ok_file (name : string) : bool :=
  Py.contains name "." &&
  match Py.rsplit1 name "."%char !! 1 with
  | Some ext => bool_decide (Py.lower ext ∈ ALLOWED_EXT)
  | None => false
  end.

Section app.
(** [limit]: the page bound of a scan request; [sha256_hex]:
    [hashlib.sha256(_).hexdigest()]; [secure_filename]: werkzeug's. *)
Context (limit : nat) (sha256_hex : string → string)
  (secure_filename : string → string).

Definition _pw (password : string) : string := sha256_hex password.

(** [utcnow] is [datetime.datetime.utcnow().isoformat()] at the call. *)
Definition register (m : method) (form : register_form) (utcnow : string)
    (w : stores) : result stores :=
  match m with
  | GET => reply (render_template "register.html" [] "") [] w
  | POST =>
      let username := Py.strip (form_username form) in
      let password := Py.strip (form_password form) in
      let email := Py.strip (default "" (form_email form)) in
      if negb (Py.truthy username) || negb (Py.truthy password) then
        reply (redirect "register")
          [("Username and password are required.", "danger")] w
      else if bool_decide (is_Some (get_item username (users_tbl w))) then
        reply (redirect "register") [("Username already taken.", "danger")] w
      else
        let item := User.mk username (_pw password) email utcnow in
        mkresult (redirect "login")
          [("Account created — please log in.", "success")]
          [PutUser username]
          (mkstores (put_item User.username item (users_tbl w))
             (photos_tbl w) (s3 w))
  end.

Definition gallery (session : option string) (w : stores) : result stores :=
  match session with
  | None => reply (redirect "login") [] w
  | Some username =>
      let items :=
        Items (scan limit (photos_tbl w)
                 (λ p, Photo.username p = username) None) in
      let items := Py.sort_reverse Photo.uploaded_at items in
      reply (render_template "gallery.html" items username) [] w
  end.

(** The loop of [upload] over the files.  [i] is the index of the file;
    [uuid4 i] and [utcnow i] are the identifier and the time drawn for it
    (drawn only when the file is accepted). *)
Fixpoint upload_loop (username tags desc : string) (uuid4 utcnow : nat → string)
    (i : nat) (files : list FileStorage) (count : nat) (tr : list io)
    (w : stores) : nat * list io * stores :=
  match files with
  | [] => (count, tr, w)
  | f :: files' =>
      if file_truthy f && _ok_file (filename f) then
        let safe := secure_filename (filename f) in
        let pid := uuid4 i in
        let key := "photos/" +:+ username +:+ "/" +:+ pid +:+ "_" +:+ safe in
        let item := Photo.mk pid username safe key tags desc (utcnow i) in
        upload_loop username tags desc uuid4 utcnow (S i) files' (S count)
          (tr ++ [S3Upload key; PutPhoto pid])
          (mkstores (users_tbl w)
             (put_item Photo.photo_id item (photos_tbl w))
             (<[key := S3.mk (stream f) (content_type f)]> (s3 w)))
      else
        upload_loop username tags desc uuid4 utcnow (S i) files' count tr w
  end.

Definition upload (session : option string) (m : method) (form : upload_form)
    (uuid4 utcnow : nat → string) (w : stores) : result stores :=
  match session with
  | None => reply (redirect "login") [] w
  | Some username =>
      match m with
      | GET => reply (render_template "upload.html" [] "") [] w
      | POST =>
          let files := form_photos form in
          match files with
          | [] => reply (redirect "upload") [("No files selected.", "danger")] w
          | f0 :: _ =>
              if bool_decide (filename f0 = "") then
                reply (redirect "upload") [("No files selected.", "danger")] w
              else
                let tags := Py.strip (default "" (form_tags form)) in
                let desc := Py.strip (default "" (form_description form)) in
                let '(count, tr, w') :=
                  upload_loop username tags desc uuid4 utcnow 0 files 0 [] w in
                mkresult (redirect "gallery")
                  [("Uploaded " +:+ pretty count +:+ " photo(s).", "success")]
                  tr w'
          end
      end
  end.

(** The filter of [search] on one item. *)
Definition matches (q : string) (p : Photo.t) : bool :=
  Py.contains (Py.lower (Photo.filename p)) q
  || Py.contains (Py.lower (Photo.tags p)) q
  || Py.contains (Py.lower (Photo.description p)) q.

(** [q_arg] is [request.args.get("q")]. *)
Definition search (session : option string) (q_arg : option string)
    (w : stores) : result stores :=
  match session with
  | None => reply (redirect "login") [] w
  | Some username =>
      let q := Py.lower (Py.strip (default "" q_arg)) in
      if negb (Py.truthy q) then
        reply (render_template "search.html" [] "") [] w
      else
        let items :=
          Items (scan limit (photos_tbl w)
                   (λ p, Photo.username p = username) None) in
        let results := filter (λ p, matches q p) items in
        reply (render_template "search.html" results q) [] w
  end.

Definition photo_not_found (w : stores) : result stores :=
  reply (redirect "gallery") [("Photo not found.", "danger")] w.

Definition download (session : option string) (photo_id : string)
    (w : stores) : result stores :=
  match session with
  | None => reply (redirect "login") [] w
  | Some username =>
      match get_item photo_id (photos_tbl w) with
      | None => photo_not_found w
      | Some item =>
          if bool_decide (Photo.username item ≠ username) then
            photo_not_found w
          else
            match s3 w !! Photo.s3_key item with
            | Some obj =>
                mkresult (send_file (S3.Body obj) (Photo.filename item)) []
                  [S3Get (Photo.s3_key item)] w
            | None => mkresult internal_error [] [S3Get (Photo.s3_key item)] w
            end
      end
  end.

Definition delete (session : option string) (photo_id : string)
    (w : stores) : result stores :=
  match session with
  | None => reply (redirect "login") [] w
  | Some username =>
      match get_item photo_id (photos_tbl w) with
      | None => photo_not_found w
      | Some item =>
          if bool_decide (Photo.username item ≠ username) then
            photo_not_found w
          else
            mkresult (redirect "gallery") [("Photo deleted.", "success")]
              [S3Delete (Photo.s3_key item); DeletePhoto photo_id]
              (mkstores (users_tbl w)
                 (delete_item photo_id (photos_tbl w))
                 (base.delete (Photo.s3_key item) (s3 w)))
      end
  end.

Definition index (session : option string) : response :=
  match session with
  | Some _ => redirect "gallery"
  | None => redirect "login"
  end.

(** [login] returns, beside the result, the session afterwards.  The
    service refuses a key whose value is the empty string: the request
    raises. *)
Definition login (session : option string) (m : method) (form : login_form)
    (w : stores) : result stores * option string :=
  match m with
  | GET => (reply (render_template "login.html" [] "") [] w, session)
  | POST =>
      let username := Py.strip (login_username form) in
      let password := Py.strip (login_password form) in
      if bool_decide (username = "") then (reply internal_error [] w, session)
      else
        match get_item username (users_tbl w) with
        | Some user =>
            if bool_decide (User.password user = _pw password) then
              (reply (redirect "gallery")
                 [("Welcome back, " +:+ username +:+ "!", "success")] w,
               Some username)
            else
              (reply (render_template "login.html" [] "")
                 [("Invalid credentials.", "danger")] w, session)
        | None =>
            (reply (render_template "login.html" [] "")
               [("Invalid credentials.", "danger")] w, session)
        end
  end.

Definition logout (session : option string) (w : stores)
  : result stores * option string :=
  (reply (redirect "login") [("Logged out.", "info")] w, None).

End app.

End Dynamo.

(** * Part B: the gallery on MongoDB *)

Module Mongo.

(** ** Collections *)

Section collection.
Context {T : Type} `{!EqDecision T}.

(** [find(filter)]: the matching documents in natural order. *)
Definition find (P : T → Prop) `{!∀ x, Decision (P x)} (col : list T) : list T :=
  filter P col.

Definition find_one (P : T → Prop) `{!∀ x, Decision (P x)} (col : list T)
  : option T := head (filter P col).

(** [cursor.sort(field, -1)]: descending on [field]; documents with equal
    values of [field] are kept in the order of the cursor. *)
Definition sort_desc (field : T → string) (docs : list T) : list T :=
  Py.sort_reverse field docs.

(** [insert_one] on a collection with a unique index on [unique]: [None] is
    the duplicate-key error. *)
Definition insert_one (unique : T → string) (doc : T) (col : list T)
  : option (list T) :=
  if decide (unique doc ∈ unique <$> col) then None else Some (col ++ [doc]).

(** [delete_one(filter)]: removes the first matching document. *)
Fixpoint delete_one (P : T → Prop) `{!∀ x, Decision (P x)} (col : list T)
  : list T :=
  match col with
  | [] => []
  | d :: col' => if decide (P d) then col' else d :: delete_one P col'
  end.

(** [ReplaceOne({field: value}, replacement, upsert=upsert)]. *)
Record ReplaceOne := mkop {
  filter_value : string;
  replacement : T;
  upsert : bool
}.

Record BulkWriteResult := mkbulk {
  upserted_count : nat;
  matched_count : nat;
  modified_count : nat
}.

(** Replaces the first document whose [field] is [v]; [None] when no
    document matches.  The replacement takes the place of the document, which
    keeps the [_id] the server gave it. *)
Fixpoint replace_first (field : T → string) (v : string) (doc : T)
    (col : list T) : option (list T) :=
  match col with
  | [] => None
  | d :: col' =>
      if decide (field d = v) then Some (doc :: col')
      else
        match replace_first field v doc col' with
        | Some r => Some (d :: r)
        | None => None
        end
  end.

(** One operation of a bulk write.  A matched document counts as matched
    and as modified: the server takes a replacement for a no-op only when it
    equals the stored document as it is stored, with its [_id], and the
    replacements of these programs, built from scanned items, carry no
    [_id].  An unmatched filter inserts the replacement when [upsert] is
    set. *)
Definition write_one (field : T → string) (st : list T * BulkWriteResult)
    (op : ReplaceOne) : list T * BulkWriteResult :=
  let '(col, r) := st in
  match replace_first field (filter_value op) (replacement op) col with
  | Some col' =>
      (col', mkbulk (upserted_count r) (S (matched_count r))
               (S (modified_count r)))
  | None =>
      if upsert op then
        (col ++ [replacement op],
         mkbulk (S (upserted_count r)) (matched_count r) (modified_count r))
      else (col, r)
  end.

(** [bulk_write(ops)]: the operations in order. *)
Definition bulk_write (field : T → string) (ops : list ReplaceOne)
    (col : list T) : list T * BulkWriteResult :=
  foldl (write_one field) (col, mkbulk 0 0 0) ops.

End collection.

Arguments ReplaceOne : clear implicits.

(** ** The application *)

Record stores := mkstores {
  users_col : list User.t;
  photos_col : list Photo.t;
  s3 : gmap string S3.object
}.

Definition ALLOWED_EXT : gset string :=
  {[ "png"; "jpg"; "jpeg"; "gif"; "bmp"; "webp" ]}.

Definition _ok_file (name : string) : bool :=
  Py.contains name "." &&
  match Py.rsplit1 name "."%char !! 1 with
  | Some ext => bool_decide (Py.lower ext ∈ ALLOWED_EXT)
  | None => false
  end.

Section app.
(** [regex_i pattern]: the server's [{"$regex": pattern, "$options": "i"}]
    as a test on a string field, [None] when the server rejects the pattern;
    [sha256_hex]: [hashlib.sha256(_).hexdigest()]; [secure_filename]:
    werkzeug's. *)
Context (regex_i : string → option (string → bool))
  (sha256_hex : string → string) (secure_filename : string → string).

Definition _pw (password : string) : string := sha256_hex password.

Definition register (m : method) (form : register_form) (utcnow : string)
    (w : stores) : result stores :=
  match m with
  | GET => reply (render_template "register.html" [] "") [] w
  | POST =>
      let username := Py.strip (form_username form) in
      let password := Py.strip (form_password form) in
      let email := Py.strip (default "" (form_email form)) in
      if negb (Py.truthy username) || negb (Py.truthy password) then
        reply (redirect "register")
          [("Username and password are required.", "danger")] w
      else if bool_decide
                (is_Some (find_one (λ d, User.username d = username)
                            (users_col w))) then
        reply (redirect "register") [("Username already taken.", "danger")] w
      else
        let doc := User.mk username (_pw password) email utcnow in
        match insert_one User.username doc (users_col w) with
        | Some col =>
            mkresult (redirect "login")
              [("Account created — please log in.", "success")]
              [PutUser username]
              (mkstores col (photos_col w) (s3 w))
        | None => reply internal_error [] w
        end
  end.

Definition gallery (session : option string) (w : stores) : result stores :=
  match session with
  | None => reply (redirect "login") [] w
  | Some username =>
      let photos :=
        sort_desc Photo.uploaded_at
          (find (λ p, Photo.username p = username) (photos_col w)) in
      reply (render_template "gallery.html" photos username) [] w
  end.

(** The loop of [upload] over the files; the first component is [None] when
    [insert_one] raised and the exception left the loop. *)
Fixpoint upload_loop (username tags desc : string) (uuid4 utcnow : nat → string)
    (i : nat) (files : list FileStorage) (count : nat) (tr : list io)
    (w : stores) : option nat * list io * stores :=
  match files with
  | [] => (Some count, tr, w)
  | f :: files' =>
      if file_truthy f && _ok_file (filename f) then
        let safe := secure_filename (filename f) in
        let pid := uuid4 i in
        let key := "photos/" +:+ username +:+ "/" +:+ pid +:+ "_" +:+ safe in
        let s3' := <[key := S3.mk (stream f) (content_type f)]> (s3 w) in
        let doc := Photo.mk pid username safe key tags desc (utcnow i) in
        match insert_one Photo.photo_id doc (photos_col w) with
        | Some col =>
            upload_loop username tags desc uuid4 utcnow (S i) files' (S count)
              (tr ++ [S3Upload key; PutPhoto pid])
              (mkstores (users_col w) col s3')
        | None =>
            (None, tr ++ [S3Upload key],
             mkstores (users_col w) (photos_col w) s3')
        end
      else
        upload_loop username tags desc uuid4 utcnow (S i) files' count tr w
  end.

Definition upload (session : option string) (m : method) (form : upload_form)
    (uuid4 utcnow : nat → string) (w : stores) : result stores :=
  match session with
  | None => reply (redirect "login") [] w
  | Some username =>
      match m with
      | GET => reply (render_template "upload.html" [] "") [] w
      | POST =>
          let files := form_photos form in
          match files with
          | [] => reply (redirect "upload") [("No files selected.", "danger")] w
          | f0 :: _ =>
              if bool_decide (filename f0 = "") then
                reply (redirect "upload") [("No files selected.", "danger")] w
              else
                let tags := Py.strip (default "" (form_tags form)) in
                let desc := Py.strip (default "" (form_description form)) in
                match upload_loop username tags desc uuid4 utcnow 0 files 0 [] w
                with
                | (Some count, tr, w') =>
                    mkresult (redirect "gallery")
                      [("Uploaded " +:+ pretty count +:+ " photo(s).",
                        "success")]
                      tr w'
                | (None, tr, w') => mkresult internal_error [] tr w'
                end
          end
      end
  end.

(** The query of [search] on one document, for a compiled pattern. *)
Definition matches (username : string) (rgx : string → bool) (p : Photo.t)
  : bool :=
  bool_decide (Photo.username p = username)
  && (rgx (Photo.filename p) || rgx (Photo.tags p) || rgx (Photo.description p)).

Definition search (session : option string) (q_arg : option string)
    (w : stores) : result stores :=
  match session with
  | None => reply (redirect "login") [] w
  | Some username =>
      let q := Py.strip (default "" q_arg) in
      if negb (Py.truthy q) then
        reply (render_template "search.html" [] "") [] w
      else
        match regex_i q with
        | Some rgx =>
            let results := find (λ p, matches username rgx p) (photos_col w) in
            reply (render_template "search.html" results q) [] w
        | None => reply internal_error [] w
        end
  end.

Definition photo_not_found (w : stores) : result stores :=
  reply (redirect "gallery") [("Photo not found.", "danger")] w.

Definition download (session : option string) (photo_id : string)
    (w : stores) : result stores :=
  match session with
  | None => reply (redirect "login") [] w
  | Some username =>
      match find_one (λ p, Photo.photo_id p = photo_id
                           ∧ Photo.username p = username) (photos_col w) with
      | None => photo_not_found w
      | Some item =>
          match s3 w !! Photo.s3_key item with
          | Some obj =>
              mkresult (send_file (S3.Body obj) (Photo.filename item)) []
                [S3Get (Photo.s3_key item)] w
          | None => mkresult internal_error [] [S3Get (Photo.s3_key item)] w
          end
      end
  end.

Definition delete (session : option string) (photo_id : string)
    (w : stores) : result stores :=
  match session with
  | None => reply (redirect "login") [] w
  | Some username =>
      match find_one (λ p, Photo.photo_id p = photo_id
                           ∧ Photo.username p = username) (photos_col w) with
      | None => photo_not_found w
      | Some item =>
          mkresult (redirect "gallery") [("Photo deleted.", "success")]
            [S3Delete (Photo.s3_key item); DeletePhoto photo_id]
            (mkstores (users_col w)
               (delete_one (λ p, Photo.photo_id p = photo_id) (photos_col w))
               (base.delete (Photo.s3_key item) (s3 w)))
      end
  end.

Definition index (session : option string) : response :=
  match session with
  | Some _ => redirect "gallery"
  | None => redirect "login"
  end.

(** [login] returns, beside the result, the session afterwards. *)
Definition login (session : option string) (m : method) (form : login_form)
    (w : stores) : result stores * option string :=
  match m with
  | GET => (reply (render_template "login.html" [] "") [] w, session)
  | POST =>
      let username := Py.strip (login_username form) in
      let password := Py.strip (login_password form) in
      match find_one (λ d, User.username d = username) (users_col w) with
      | Some user =>
          if bool_decide (User.password user = _pw password) then
            (reply (redirect "gallery")
               [("Welcome back, " +:+ username +:+ "!", "success")] w,
             Some username)
          else
            (reply (render_template "login.html" [] "")
               [("Invalid credentials.", "danger")] w, session)
      | None =>
          (reply (render_template "login.html" [] "")
             [("Invalid credentials.", "danger")] w, session)
      end
  end.

Definition logout (session : option string) (w : stores)
  : result stores * option string :=
  (reply (redirect "login") [("Logged out.", "info")] w, None).

End app.

End Mongo.

(** * The pattern language of the document store

    A fragment of the regular expressions the server compiles for
    [$regex] with option [i]: a pattern made of ordinary characters, which
    match themselves without regard to case, and of the dot, which matches
    any character but the line feed.  The match is a search: the pattern may
    occur anywhere in the field.  [compile] answers [None] on every other
    metacharacter: such a pattern is outside the fragment, and nothing is
    stated below of a search for it. *)

Module Pcre.

Inductive atom := Lit (c : ascii) | AnyChar.

(** The metacharacters outside a character class:
    backslash, caret, dollar, dot, bracket, bar, parentheses, question mark,
    star, plus, brace. *)
Definition is_meta (c : ascii) : bool :=
  bool_decide
    (nat_of_ascii c ∈ [92; 94; 36; 46; 91; 124; 40; 41; 63; 42; 43; 123]).

Fixpoint compile (pattern : string) : option (list atom) :=
  match pattern with
  | EmptyString => Some []
  | String c p =>
      if bool_decide (c = "."%char) then cons AnyChar <$> compile p
      else if is_meta c then None
      else cons (Lit c) <$> compile p
  end.

Definition atom_matches (a : atom) (c : ascii) : bool :=
  match a with
  | Lit x => bool_decide (Py.lower_char x = Py.lower_char c)
  | AnyChar => negb (bool_decide (nat_of_ascii c = 10))
  end.

Fixpoint match_here (atoms : list atom) (s : string) : bool :=
  match atoms, s with
  | [], _ => true
  | _ :: _, EmptyString => false
  | a :: atoms', String c s' => atom_matches a c && match_here atoms' s'
  end.

Fixpoint search_in (atoms : list atom) (s : string) : bool :=
  match_here atoms s ||
  match s with
  | EmptyString => false
  | String _ s' => search_in atoms s'
  end.

Definition regex_i (pattern : string) : option (string → bool) :=
  search_in <$> compile pattern.

End Pcre.

(** * Part C: the migration *)

Module Migration.

Import Dynamo Mongo.

Section scan.
Context {T : Type} (limit : nat).

(** The loop of [scan_all]: one scan request per iteration, until a
    response carries no [LastEvaluatedKey].  [fuel] bounds the number of
    requests; [None] when it is used up. *)
Fixpoint scan_pages (fuel : nat) (table : gmap string T) (items : list T)
    (last_key : option string) : option (list T) :=
  match fuel with
  | 0 => None
  | S fuel' =>
      let resp := scan limit table (λ _, True) last_key in
      let items := items ++ Items resp in
      match LastEvaluatedKey resp with
      | Some k => scan_pages fuel' table items (Some k)
      | None => Some items
      end
  end.

Definition scan_all (table : gmap string T) : option (list T) :=
  scan_pages (S (size table)) table [] None.

End scan.

(** The DynamoDB tables read and the MongoDB collections written. *)
Record source := mksource {
  TBL_USERS : gmap string User.t;
  TBL_PHOTOS : gmap string Photo.t
}.

Record database := mkdb {
  users : list User.t;
  photos : list Photo.t
}.

(** The lines printed that carry a count. *)
Inductive line :=
| Found (n : nat)
| Upserted (upserted modified : nat).

Section migrate.
Context (limit : nat).

Definition migrate_users (src : source) (db : database)
  : option (database * list line) :=
  match scan_all limit (TBL_USERS src) with
  | None => None
  | Some [] => Some (db, [Found 0])
  | Some users_ =>
      let ops := (λ u, mkop (User.username u) u true) <$> users_ in
      let '(col, result) := bulk_write User.username ops (users db) in
      Some (mkdb col (photos db),
            [Found (length users_);
             Upserted (upserted_count result) (modified_count result)])
  end.

Definition migrate_photos (src : source) (db : database)
  : option (database * list line) :=
  match scan_all limit (TBL_PHOTOS src) with
  | None => None
  | Some [] => Some (db, [Found 0])
  | Some photos_ =>
      let ops := (λ p, mkop (Photo.photo_id p) p true) <$> photos_ in
      let '(col, result) := bulk_write Photo.photo_id ops (photos db) in
      Some (mkdb (users db) col,
            [Found (length photos_);
             Upserted (upserted_count result) (modified_count result)])
  end.

Definition main (src : source) (db : database) : option (database * list line) :=
  match migrate_users src db with
  | None => None
  | Some (db1, out1) =>
      match migrate_photos src db1 with
      | None => None
      | Some (db2, out2) => Some (db2, out1 ++ out2)
      end
  end.

End migrate.

End Migration.

(** * Vocabulary of the statements *)

Module Vocab.

(** [desc key x y]: [x] may stand before [y] in descending order of [key],
    strings being compared as Python compares them, character by character. *)
Definition desc {A : Type} (key : A → string) (x y : A) : Prop :=
  String.leb (key y) (key x) = true.

(** [keyed key tbl]: every item of the table is stored under the value of
    its hash-key attribute, as [put_item] stores it. *)
Definition keyed {T : Type} (key : T → string) (tbl : gmap string T) : Prop :=
  map_Forall (λ k x, key x = k) tbl.

(** The number of user records of name [u] in a list of records. *)
Definition count_user (u : string) (l : list User.t) : nat :=
  length (filter (λ x, User.username x = u) l).

(** A sequence of registrations, each with its form and its clock. *)
Definition dynamo_register_all (sha256_hex : string → string)
    (calls : list (register_form * string)) (w : Dynamo.stores)
  : Dynamo.stores :=
  foldl (λ w call,
           stores_after (Dynamo.register sha256_hex POST call.1 call.2 w))
    w calls.

Definition mongo_register_all (sha256_hex : string → string)
    (calls : list (register_form * string)) (w : Mongo.stores)
  : Mongo.stores :=
  foldl (λ w call,
           stores_after (Mongo.register sha256_hex POST call.1 call.2 w))
    w calls.

(** The store writes the upload of one file performs: the blob under its
    key, then the photo record, when [accept] holds of the file name; none
    otherwise.  [pid] is the identifier drawn for the file. *)
Definition upload_writes (accept : string → bool)
    (secure_filename : string → string) (username pid : string)
    (f : FileStorage) : list io :=
  if accept (filename f) then
    [S3Upload ("photos/" +:+ username +:+ "/" +:+ pid +:+ "_"
               +:+ secure_filename (filename f));
     PutPhoto pid]
  else [].

(** The blob key and the record the upload makes for an accepted file
    [f], with the identifier [pid] and the time [now] drawn for it. *)
Definition upload_key (secure_filename : string → string)
    (username pid : string) (f : FileStorage) : string :=
  "photos/" +:+ username +:+ "/" +:+ pid +:+ "_"
  +:+ secure_filename (filename f).

Definition uploaded_photo (secure_filename : string → string)
    (username tags desc pid now : string) (f : FileStorage) : Photo.t :=
  Photo.mk pid username (secure_filename (filename f))
    (upload_key secure_filename username pid f) tags desc now.

(** The records of the accepted files of an upload, in the order of the
    files; [i] is the index of the first file. *)
Definition upload_docs (secure_filename : string → string)
    (username tags desc : string) (uuid4 utcnow : nat → string) (i : nat)
    (files : list FileStorage) : list Photo.t :=
  concat
    (imap (λ j f,
             if Dynamo._ok_file (filename f) then
               [uploaded_photo secure_filename username tags desc
                  (uuid4 (i + j)) (utcnow (i + j)) f]
             else []) files).

(** The blobs of the accepted files of an upload, each with its key, in the
    order of the files. *)
Definition upload_blobs (secure_filename : string → string)
    (username : string) (uuid4 : nat → string) (i : nat)
    (files : list FileStorage) : list (string * S3.object) :=
  concat
    (imap (λ j f,
             if Dynamo._ok_file (filename f) then
               [(upload_key secure_filename username (uuid4 (i + j)) f,
                 S3.mk (stream f) (content_type f))]
             else []) files).

(** A table after the items of [xs] are put, in turn, under their keys,
    and a bucket after the blobs are written, in turn, under theirs. *)
Definition put_all {T : Type} (key : T → string) (xs : list T)
    (tbl : gmap string T) : gmap string T :=
  foldl (λ t x, Dynamo.put_item key x t) tbl xs.

Definition put_blobs (blobs : list (string * S3.object))
    (s3 : gmap string S3.object) : gmap string S3.object :=
  foldl (λ b kv, <[kv.1 := kv.2]> b) s3 blobs.

(** Every photo record has its blob in the bucket. *)
Definition blobs_present (photos : list Photo.t) (s3 : gmap string S3.object)
  : Prop :=
  ∀ p, p ∈ photos → is_Some (s3 !! Photo.s3_key p).

(** The document a collection holds under the natural key [k]: the first
    one [find_one] meets. *)
Definition stored {T : Type} (key : T → string) (k : string) (col : list T)
  : option T := Mongo.find_one (λ d, key d = k) col.

(** The upsert of one record by its natural key: the first document of
    that key is replaced, or the record is added at the end. *)
Fixpoint upsert {T : Type} (key : T → string) (x : T) (col : list T) : list T :=
  match col with
  | [] => [x]
  | d :: col' =>
      if decide (key d = key x) then x :: col' else d :: upsert key x col'
  end.

(** The collection after the upsert of every record of [xs] in turn. *)
Definition upsert_all {T : Type} (key : T → string) (xs col : list T) : list T :=
  foldl (λ c x, upsert key x c) col xs.

(** Among the scanned records [xs]: those whose natural key the collection
    did not hold, and those whose key it held. *)
Definition absent_count {T : Type} (key : T → string) (xs col : list T) : nat :=
  length (filter (λ x, stored key (key x) col = None) xs).

Definition present_count {T : Type} (key : T → string) (xs col : list T)
  : nat :=
  length (filter (λ x, is_Some (stored key (key x) col)) xs).

(** What the migration of one table prints: the number of items found and,
    when there are any, the two counts of the bulk write. *)
Definition report {T : Type} (key : T → string) (xs col : list T)
  : list Migration.line :=
  match xs with
  | [] => [Migration.Found 0]
  | _ => [Migration.Found (length xs);
          Migration.Upserted (absent_count key xs col)
            (present_count key xs col)]
  end.

(** A query with no metacharacter of the pattern language. *)
Fixpoint literal (q : string) : bool :=
  match q with
  | EmptyString => true
  | String c q' => negb (Pcre.is_meta c) && literal q'
  end.

(** A string of printable ASCII characters, from the space to the tilde. *)
Fixpoint printable (s : string) : bool :=
  match s with
  | EmptyString => true
  | String c s' =>
      Nat.leb 32 (nat_of_ascii c) && Nat.leb (nat_of_ascii c) 126
      && printable s'
  end.

(** The text fields of a photo record are ASCII strings. *)
Definition ascii_fields (p : Photo.t) : bool :=
  Py.is_ascii (Photo.filename p) && Py.is_ascii (Photo.tags p)
  && Py.is_ascii (Photo.description p).

(** The items of a table in the order of its enumeration. *)
Definition items_of {T : Type} (tbl : gmap string T) : list T :=
  (map_to_list tbl).*2.

End Vocab.

Import Vocab.

(** * Sample data *)

Module Sample.

Definition alice : User.t :=
  User.mk "alice" "5e884898da28" "alice@example.org" "2024-01-01T09:00:00".

Definition bob : User.t :=
  User.mk "bob" "6cf615d5bcaa" "" "2024-01-01T09:30:00".

Definition cat : Photo.t :=
  Photo.mk "p1" "alice" "cat.png" "photos/alice/p1_cat.png" "pet" ""
    "2024-01-01T10:00:00".

Definition dog : Photo.t :=
  Photo.mk "p2" "alice" "dog.jpg" "photos/alice/p2_dog.jpg" "pet walk" ""
    "2024-01-02T10:00:00".

Definition hat : Photo.t :=
  Photo.mk "p3" "bob" "hat.gif" "photos/bob/p3_hat.gif" "" "a hat"
    "2024-01-03T10:00:00".

Definition users_table : gmap string User.t :=
  Dynamo.put_item User.username bob (Dynamo.put_item User.username alice ∅).

Definition photos_table : gmap string Photo.t :=
  Dynamo.put_item Photo.photo_id hat
    (Dynamo.put_item Photo.photo_id dog
       (Dynamo.put_item Photo.photo_id cat ∅)).

Definition bucket : gmap string S3.object :=
  {[ "photos/alice/p1_cat.png" := S3.mk "<cat>" "image/png";
     "photos/alice/p2_dog.jpg" := S3.mk "<dog>" "image/jpeg";
     "photos/bob/p3_hat.gif" := S3.mk "<hat>" "image/gif" ]}.

Definition dynamo : Dynamo.stores :=
  Dynamo.mkstores users_table photos_table bucket.

Definition mongo : Mongo.stores :=
  Mongo.mkstores [alice; bob] [cat; dog; hat] bucket.

(** Two photos of one owner uploaded at the same instant. *)
Definition first_twin : Photo.t :=
  Photo.mk "p2" "alice" "one.png" "photos/alice/p2_one.png" "" ""
    "2024-01-05T10:00:00".

Definition second_twin : Photo.t :=
  Photo.mk "p1" "alice" "two.png" "photos/alice/p1_two.png" "" ""
    "2024-01-05T10:00:00".

(** The tables as the source of a migration, and destinations. *)
Definition source : Migration.source :=
  Migration.mksource users_table photos_table.

Definition only_alice : Migration.source :=
  Migration.mksource (Dynamo.put_item User.username alice ∅) ∅.

Definition fresh_db : Migration.database := Migration.mkdb [] [].

Definition dynamo_empty : Dynamo.stores := Dynamo.mkstores ∅ ∅ ∅.

Definition mongo_empty : Mongo.stores := Mongo.mkstores [] [] ∅.

End Sample.

(** * Facts about the Python built-ins *)

Example lower_example : Py.lower "Cat.PNG" = "cat.png".
Proof. reflexivity. Qed.

Example strip_example : Py.strip "  a b  " = "a b".
Proof. reflexivity. Qed.

Example rsplit1_example : Py.rsplit1 "a.tar.gz" "."%char = ["a.tar"; "gz"].
Proof. reflexivity. Qed.

Example contains_example :
  Py.contains "cat.png" "t.p" = true ∧ Py.contains "cat.png" "c.t" = false.
Proof. split; reflexivity. Qed.

Example sort_reverse_example :
  Py.sort_reverse snd [(1, "b"); (2, "c"); (3, "b"); (4, "a")]
  = [(2, "c"); (1, "b"); (3, "b"); (4, "a")].
Proof. reflexivity. Qed.

Example ok_file_examples :
  Dynamo._ok_file "a.PNG" = true ∧ Dynamo._ok_file "png" = false
  ∧ Dynamo._ok_file "a.png." = false ∧ Dynamo._ok_file ".gif" = true
  ∧ Dynamo._ok_file "x.tar.gz" = false.
Proof. repeat split; vm_compute; reflexivity. Qed.

Lemma string_compare_refl (a : string) : String.compare a a = Eq.
Proof.
  pose proof (String.compare_antisym a a) as H.
  destruct (String.compare a a); simpl in H; congruence.
Qed.

Lemma string_compare_trans (s1 s2 s3 : string) (c : comparison) :
  String.compare s1 s2 = c → String.compare s2 s3 = c → String.compare s1 s3 = c.
Proof.
  revert s2 s3. induction s1 as [|a s1 IH]; intros [|b s2] [|d s3]; simpl;
    try congruence.
  unfold Ascii.compare.
  destruct (N.compare_spec (N_of_ascii a) (N_of_ascii b)) as [E1|E1|E1],
    (N.compare_spec (N_of_ascii b) (N_of_ascii d)) as [E2|E2|E2],
    (N.compare_spec (N_of_ascii a) (N_of_ascii d)) as [E3|E3|E3];
    try congruence; try lia; eauto.
Qed.

Lemma string_leb_trans (a b c : string) :
  String.leb a b = true → String.leb b c = true → String.leb a c = true.
Proof.
  unfold String.leb. intros H1 H2.
  destruct (String.compare a b) eqn:E1; [| |done].
  - apply String.compare_eq_iff in E1. by subst.
  - destruct (String.compare b c) eqn:E2; [| |done].
    + apply String.compare_eq_iff in E2. subst. by rewrite E1.
    + by rewrite (string_compare_trans _ _ _ _ E1 E2).
Qed.

Lemma ltb_false_leb (a b : string) :
  String.ltb a b = false → String.leb b a = true.
Proof.
  unfold String.ltb, String.leb. rewrite (String.compare_antisym b a).
  destruct (String.compare a b); simpl; congruence.
Qed.

Lemma ltb_true_leb (a b : string) :
  String.ltb a b = true → String.leb a b = true.
Proof.
  unfold String.ltb, String.leb. destruct (String.compare a b); congruence.
Qed.

Lemma ltb_irrefl (a : string) : String.ltb a a = false.
Proof. unfold String.ltb. by rewrite string_compare_refl. Qed.

Section sort_facts.
Context {A : Type} (key : A → string).

Lemma desc_transitive : Transitive (desc key).
Proof.
  intros x y z Hxy Hyz. unfold desc in *. by eapply string_leb_trans.
Qed.

Lemma insert_desc_perm x l : Py.insert_desc key x l ≡ₚ x :: l.
Proof.
  induction l as [|y l IH]; simpl; [done|].
  destruct (String.ltb (key x) (key y)); [|done].
  rewrite IH. apply Permutation_swap.
Qed.

Lemma sort_reverse_perm l : Py.sort_reverse key l ≡ₚ l.
Proof.
  induction l as [|x l IH]; simpl; [done|].
  rewrite insert_desc_perm. by rewrite IH.
Qed.

Lemma insert_desc_hdrel a x l :
  desc key a x → HdRel (desc key) a l → HdRel (desc key) a (Py.insert_desc key x l).
Proof.
  intros Hax Hal. destruct l as [|y l]; simpl; [by constructor|].
  destruct (String.ltb (key x) (key y)); constructor; [|done].
  by inversion Hal.
Qed.

Lemma insert_desc_sorted x l :
  Sorted (desc key) l → Sorted (desc key) (Py.insert_desc key x l).
Proof.
  induction 1 as [|y l Hs IH Hhd]; simpl; [by repeat constructor|].
  destruct (String.ltb (key x) (key y)) eqn:E.
  - constructor; [done|]. apply insert_desc_hdrel; [|done].
    by apply ltb_true_leb.
  - constructor; [by constructor|]. constructor. by apply ltb_false_leb.
Qed.

Lemma sort_reverse_sorted l : StronglySorted (desc key) (Py.sort_reverse key l).
Proof.
  apply Sorted_StronglySorted; [apply desc_transitive|].
  induction l as [|x l IH]; simpl; [constructor|]. by apply insert_desc_sorted.
Qed.

Lemma insert_desc_stable k x l :
  filter (λ y, key y = k) (Py.insert_desc key x l)
  = filter (λ y, key y = k) (x :: l).
Proof.
  induction l as [|y l IH]; simpl; [done|].
  destruct (String.ltb (key x) (key y)) eqn:E; [|done].
  rewrite filter_cons, IH, !filter_cons.
  destruct (decide (key y = k)) as [Hy|Hy], (decide (key x = k)) as [Hx|Hx];
    try done.
  rewrite Hx, Hy, ltb_irrefl in E. done.
Qed.

Lemma sort_reverse_stable k l :
  filter (λ y, key y = k) (Py.sort_reverse key l) = filter (λ y, key y = k) l.
Proof.
  induction l as [|x l IH]; simpl; [done|].
  by rewrite insert_desc_stable, !filter_cons, IH.
Qed.

End sort_facts.

(** * Facts about the stores *)

Section scan_facts.
Context {T : Type}.
Implicit Types (tbl : gmap string T) (l : list (string * T)).

Lemma after_key_subseteq k l : Dynamo.after_key k l ⊆ l.
Proof.
  induction l as [|kv l IH]; simpl; [done|].
  intros x Hx. case_decide; right; [done|by apply IH].
Qed.

(** A scan returns items of the table that pass the filter. *)
Lemma scan_items_elem limit tbl (P : T → Prop) `{!∀ x, Decision (P x)} start x :
  x ∈ Dynamo.Items (Dynamo.scan limit tbl P start) →
  P x ∧ ∃ k, tbl !! k = Some x.
Proof.
  unfold Dynamo.scan; simpl. rewrite list_elem_of_filter, list_elem_of_fmap.
  intros [HP [[k y] [-> Hin]]]. split; [done|]. exists k.
  apply elem_of_map_to_list. apply subseteq_take in Hin.
  destruct start; [by apply after_key_subseteq in Hin|done].
Qed.

(** A table that fits one page is read whole by one request. *)
Lemma scan_single_page limit tbl (P : T → Prop) `{!∀ x, Decision (P x)} :
  size tbl ≤ limit →
  Dynamo.scan limit tbl P None
  = Dynamo.mkscan (filter P (map_to_list tbl).*2) None.
Proof.
  intros Hn. unfold Dynamo.scan.
  rewrite take_ge, drop_ge by (by rewrite length_map_to_list). done.
Qed.

End scan_facts.

Lemma filter_none {T : Type} (P : T → Prop) `{!∀ x, Decision (P x)}
    (l : list T) :
  (∀ x, x ∈ l → ¬ P x) → filter P l = [].
Proof.
  induction l as [|y l IH]; intros Hno; [done|].
  rewrite filter_cons. case_decide as Hy.
  - exfalso. apply (Hno y); [left|done].
  - apply IH. intros x Hx. apply Hno. by right.
Qed.

Lemma find_one_None {T : Type} (P : T → Prop) `{!∀ x, Decision (P x)}
    (col : list T) :
  (∀ x, x ∈ col → ¬ P x) → Mongo.find_one P col = None.
Proof.
  intros Hno. unfold Mongo.find_one. by rewrite filter_none.
Qed.

(** * Search and listing: the empty query, owner isolation *)

(** C7.  The empty query is no match-all filter: in both backends the
    search for the empty string (and for a missing [q]) shows no photo,
    whatever the stores hold, and touches no store. *)
Theorem C7_search_empty_query (limit : nat)
    (regex_i : string → option (string → bool)) (owner : string)
    (wA : Dynamo.stores) (wB : Mongo.stores) :
  Dynamo.search limit (Some owner) (Some "") wA
    = mkresult (render_template "search.html" [] "") [] [] wA
  ∧ Mongo.search regex_i (Some owner) (Some "") wB
    = mkresult (render_template "search.html" [] "") [] [] wB
  ∧ Dynamo.search limit (Some owner) None wA
    = mkresult (render_template "search.html" [] "") [] [] wA
  ∧ Mongo.search regex_i (Some owner) None wB
    = mkresult (render_template "search.html" [] "") [] [] wB.
Proof. repeat split. Qed.

Lemma dynamo_gallery_shown limit (b : string) (w : Dynamo.stores) (p : Photo.t) :
  p ∈ shown (response_of (Dynamo.gallery limit (Some b) w)) →
  Photo.username p = b ∧ ∃ k, Dynamo.photos_tbl w !! k = Some p.
Proof.
  unfold Dynamo.gallery, reply. cbn [response_of shown].
  rewrite sort_reverse_perm. intros Hp.
  by apply (scan_items_elem _ _ (λ p, Photo.username p = b)) in Hp.
Qed.

Lemma dynamo_search_shown limit (b : string) q (w : Dynamo.stores) (p : Photo.t) :
  p ∈ shown (response_of (Dynamo.search limit (Some b) q w)) →
  Photo.username p = b ∧ ∃ k, Dynamo.photos_tbl w !! k = Some p.
Proof.
  unfold Dynamo.search.
  destruct (negb _); unfold reply; cbn [response_of shown];
    [by intros ?%elem_of_nil|].
  rewrite list_elem_of_filter. intros [_ Hp].
  by apply (scan_items_elem _ _ (λ p, Photo.username p = b)) in Hp.
Qed.

Lemma mongo_gallery_shown (b : string) (w : Mongo.stores) (p : Photo.t) :
  p ∈ shown (response_of (Mongo.gallery (Some b) w)) →
  Photo.username p = b ∧ p ∈ Mongo.photos_col w.
Proof.
  simpl. unfold Mongo.sort_desc, Mongo.find.
  rewrite sort_reverse_perm, list_elem_of_filter. done.
Qed.

Lemma mongo_search_shown regex_i (b : string) q (w : Mongo.stores) (p : Photo.t) :
  p ∈ shown (response_of (Mongo.search regex_i (Some b) q w)) →
  Photo.username p = b ∧ p ∈ Mongo.photos_col w.
Proof.
  unfold Mongo.search.
  destruct (negb _); simpl; [by intros ?%elem_of_nil|].
  destruct (regex_i _); simpl; [|by intros ?%elem_of_nil].
  unfold Mongo.find, Mongo.matches. rewrite list_elem_of_filter.
  intros [[Hu _]%andb_True Hp]. by apply bool_decide_unpack in Hu.
Qed.

(** C5.  Owner isolation: a photo of user [a] is never shown to another
    user [b], neither by the gallery nor by a search, in both backends and
    for every query. *)
Theorem C5_owner_isolation (limit : nat)
    (regex_i : string → option (string → bool)) (a b : string) (p : Photo.t)
    (q : option string) (wA : Dynamo.stores) (wB : Mongo.stores) :
  Photo.username p = a → a ≠ b →
  (p ∉ shown (response_of (Dynamo.gallery limit (Some b) wA)))
  ∧ (p ∉ shown (response_of (Mongo.gallery (Some b) wB)))
  ∧ (p ∉ shown (response_of (Dynamo.search limit (Some b) q wA)))
  ∧ (p ∉ shown (response_of (Mongo.search regex_i (Some b) q wB))).
Proof.
  intros Ha Hab. repeat split.
  - intros [? _]%dynamo_gallery_shown. congruence.
  - intros [? _]%mongo_gallery_shown. congruence.
  - intros [? _]%dynamo_search_shown. congruence.
  - intros [? _]%mongo_search_shown. congruence.
Qed.

Lemma C5_owner_isolation_witness :
  Photo.username Sample.cat = "alice" ∧ "alice" ≠ "bob"
  ∧ (Sample.cat
     ∉ shown (response_of (Dynamo.gallery 10 (Some "bob") Sample.dynamo)))
  ∧ (Sample.cat ∉ shown (response_of (Mongo.gallery (Some "bob") Sample.mongo)))
  ∧ (Sample.cat
     ∉ shown (response_of
                (Dynamo.search 10 (Some "bob") (Some "cat") Sample.dynamo)))
  ∧ (Sample.cat
     ∉ shown (response_of
                (Mongo.search Pcre.regex_i (Some "bob") (Some "cat")
                   Sample.mongo))).
Proof.
  split; [reflexivity|]. split; [discriminate|].
  apply (C5_owner_isolation 10 Pcre.regex_i "alice" "bob" Sample.cat
           (Some "cat") Sample.dynamo Sample.mongo); [reflexivity|discriminate].
Defined.

(** * Download and delete of another user's photo *)

(** C8.  When the photo exists under another owner, download and delete
    answer exactly as for an identifier that does not exist: the same
    redirect with the same "Photo not found." message, no access to the
    blob store, no write to the metadata store, the stores unchanged.
    [wA] and [wB] hold the photo [pid] under another owner; [wA0] and
    [wB0] hold no photo [pid]. *)
Theorem C8_foreign_photo_as_not_found (requester pid : string)
    (item : Photo.t) (wA wA0 : Dynamo.stores) (wB wB0 : Mongo.stores) :
  Dynamo.get_item pid (Dynamo.photos_tbl wA) = Some item →
  Mongo.find (λ p, Photo.photo_id p = pid) (Mongo.photos_col wB) = [item] →
  Photo.username item ≠ requester →
  Dynamo.get_item pid (Dynamo.photos_tbl wA0) = None →
  Mongo.find (λ p, Photo.photo_id p = pid) (Mongo.photos_col wB0) = [] →
  let not_found {W} (w : W) :=
    mkresult (redirect "gallery") [("Photo not found.", "danger")] [] w in
  (Dynamo.download (Some requester) pid wA = not_found wA
   ∧ Dynamo.download (Some requester) pid wA0 = not_found wA0)
  ∧ (Dynamo.delete (Some requester) pid wA = not_found wA
     ∧ Dynamo.delete (Some requester) pid wA0 = not_found wA0)
  ∧ (Mongo.download (Some requester) pid wB = not_found wB
     ∧ Mongo.download (Some requester) pid wB0 = not_found wB0)
  ∧ (Mongo.delete (Some requester) pid wB = not_found wB
     ∧ Mongo.delete (Some requester) pid wB0 = not_found wB0).
Proof.
  intros HA HB Hne HA0 HB0 not_found.
  assert (∀ col l,
    Mongo.find (λ p : Photo.t, Photo.photo_id p = pid) col = l →
    Forall (λ p, Photo.username p ≠ requester) l →
    Mongo.find_one (λ p, Photo.photo_id p = pid ∧ Photo.username p = requester)
      col = None) as Hnone.
  { intros col l Hl Hall. apply find_one_None. intros p Hp [Hid Hu].
    rewrite Forall_forall in Hall. apply (Hall p); [|done].
    rewrite <- Hl. unfold Mongo.find. by apply list_elem_of_filter. }
  assert (bool_decide (Photo.username item ≠ requester) = true) as Hdec
    by (by apply bool_decide_eq_true).
  unfold Dynamo.download, Dynamo.delete, Mongo.download, Mongo.delete.
  rewrite HA, HA0, Hdec.
  rewrite (Hnone _ _ HB) by (by repeat constructor).
  rewrite (Hnone _ _ HB0) by constructor.
  done.
Qed.

Lemma C8_foreign_photo_as_not_found_witness :
  Dynamo.download (Some "bob") "p1" Sample.dynamo
    = mkresult (redirect "gallery") [("Photo not found.", "danger")] []
        Sample.dynamo
  ∧ Dynamo.delete (Some "bob") "p1" Sample.dynamo
    = mkresult (redirect "gallery") [("Photo not found.", "danger")] []
        Sample.dynamo
  ∧ Mongo.download (Some "bob") "p1" Sample.mongo
    = mkresult (redirect "gallery") [("Photo not found.", "danger")] []
        Sample.mongo
  ∧ Mongo.delete (Some "bob") "p1" Sample.mongo
    = mkresult (redirect "gallery") [("Photo not found.", "danger")] []
        Sample.mongo.
Proof.
  pose proof (C8_foreign_photo_as_not_found "bob" "p1" Sample.cat
                Sample.dynamo Sample.dynamo_empty Sample.mongo
                Sample.mongo_empty) as H.
  cbv zeta in H.
  destruct H as ((HA & _) & (HA' & _) & (HB & _) & (HB' & _));
    [vm_compute; reflexivity | vm_compute; reflexivity | discriminate
    | vm_compute; reflexivity | vm_compute; reflexivity |].
  repeat split; assumption.
Defined.

(** * The gallery: order of the listing *)

Lemma map_to_list_values_elem {T : Type} (tbl : gmap string T) (x : T) :
  x ∈ (map_to_list tbl).*2 ↔ ∃ k, tbl !! k = Some x.
Proof.
  rewrite list_elem_of_fmap. split.
  - intros [[k y] [-> Hin]]. exists k. by apply elem_of_map_to_list.
  - intros [k Hk]. exists (k, x). split; [done|]. by apply elem_of_map_to_list.
Qed.

(** C6, as the code has it.  The gallery of the document backend shows
    exactly the owner's photos, in descending order of [uploaded_at], photos
    of equal [uploaded_at] in the order of the collection, which is the order
    of insertion.  The gallery of the key-value backend, on a table that one
    scan request reads whole, shows exactly the owner's photos, in
    descending order of [uploaded_at], photos of equal [uploaded_at] in the
    order in which the scan enumerates the table. *)
Theorem C6_gallery_sorted_stable (limit : nat) (owner : string)
    (wA : Dynamo.stores) (wB : Mongo.stores) :
  size (Dynamo.photos_tbl wA) ≤ limit →
  let own (p : Photo.t) := Photo.username p = owner in
  let scanned := (map_to_list (Dynamo.photos_tbl wA)).*2 in
  ∃ lA lB,
    Dynamo.gallery limit (Some owner) wA
      = mkresult (render_template "gallery.html" lA owner) [] [] wA
    ∧ Mongo.gallery (Some owner) wB
      = mkresult (render_template "gallery.html" lB owner) [] [] wB
    ∧ (∀ p, p ∈ lA ↔ (∃ k, Dynamo.photos_tbl wA !! k = Some p) ∧ own p)
    ∧ lA ≡ₚ filter own scanned
    ∧ lB ≡ₚ filter own (Mongo.photos_col wB)
    ∧ StronglySorted (desc Photo.uploaded_at) lA
    ∧ StronglySorted (desc Photo.uploaded_at) lB
    ∧ (∀ t, filter (λ p, Photo.uploaded_at p = t) lA
            = filter (λ p, Photo.uploaded_at p = t) (filter own scanned))
    ∧ (∀ t, filter (λ p, Photo.uploaded_at p = t) lB
            = filter (λ p, Photo.uploaded_at p = t)
                (filter own (Mongo.photos_col wB))).
Proof.
  intros Hpage own scanned.
  exists (Py.sort_reverse Photo.uploaded_at (filter own scanned)),
    (Py.sort_reverse Photo.uploaded_at (filter own (Mongo.photos_col wB))).
  split.
  { unfold Dynamo.gallery. by rewrite (scan_single_page _ _ own Hpage). }
  split; [done|]. split.
  { intros p. rewrite sort_reverse_perm, list_elem_of_filter.
    unfold scanned. rewrite map_to_list_values_elem. tauto. }
  split; [apply sort_reverse_perm|]. split; [apply sort_reverse_perm|].
  split; [apply sort_reverse_sorted|]. split; [apply sort_reverse_sorted|].
  split; intros t; apply sort_reverse_stable.
Qed.

Lemma C6_gallery_sorted_stable_witness :
  size (Dynamo.photos_tbl Sample.dynamo) ≤ 10
  ∧ ∃ lA lB,
      Dynamo.gallery 10 (Some "alice") Sample.dynamo
        = mkresult (render_template "gallery.html" lA "alice") [] []
            Sample.dynamo
      ∧ Mongo.gallery (Some "alice") Sample.mongo
        = mkresult (render_template "gallery.html" lB "alice") [] []
            Sample.mongo
      ∧ StronglySorted (desc Photo.uploaded_at) lA
      ∧ StronglySorted (desc Photo.uploaded_at) lB.
Proof.
  assert (size (Dynamo.photos_tbl Sample.dynamo) ≤ 10) as Hsize
    by (vm_compute; lia).
  split; [exact Hsize|].
  destruct (C6_gallery_sorted_stable 10 "alice" Sample.dynamo Sample.mongo Hsize)
    as (lA & lB & HA & HB & _ & _ & _ & HsA & HsB & _).
  exists lA, lB. repeat split; assumption.
Defined.

(** C6, as stated, fails on the key-value backend.  Two photos of one
    owner have the same [uploaded_at].  Whether [first_twin] is stored
    before [second_twin] or after it, the table is the same and the gallery
    lists [second_twin] first: in the first history the tie is not broken
    by the order of insertion. *)
Lemma C6_ties_not_in_insertion_order :
  let first_then_second :=
    Dynamo.put_item Photo.photo_id Sample.second_twin
      (Dynamo.put_item Photo.photo_id Sample.first_twin ∅) in
  let second_then_first :=
    Dynamo.put_item Photo.photo_id Sample.first_twin
      (Dynamo.put_item Photo.photo_id Sample.second_twin ∅) in
  Photo.uploaded_at Sample.first_twin = Photo.uploaded_at Sample.second_twin
  ∧ shown (response_of
             (Dynamo.gallery 10 (Some "alice")
                (Dynamo.mkstores ∅ first_then_second ∅)))
    = [Sample.second_twin; Sample.first_twin]
  ∧ shown (response_of
             (Dynamo.gallery 10 (Some "alice")
                (Dynamo.mkstores ∅ second_then_first ∅)))
    = [Sample.second_twin; Sample.first_twin].
Proof. repeat split; vm_compute; reflexivity. Qed.

(** The gallery of the key-value backend issues one scan request: it
    shows the owner's photos among the first page of the enumeration. *)
Lemma dynamo_gallery_first_page (limit : nat) (owner : string)
    (w : Dynamo.stores) :
  shown (response_of (Dynamo.gallery limit (Some owner) w))
  ≡ₚ filter (λ p, Photo.username p = owner)
       (take limit (items_of (Dynamo.photos_tbl w))).
Proof.
  unfold Dynamo.gallery, reply. cbn [response_of shown].
  rewrite sort_reverse_perm. unfold Dynamo.scan, items_of. simpl.
  by rewrite fmap_take.
Qed.

(** With pages of two items, the gallery of [alice] misses one of her two
    photos. *)
Lemma dynamo_gallery_reads_one_page :
  shown (response_of (Dynamo.gallery 2 (Some "alice") Sample.dynamo))
  = [Sample.cat]
  ∧ shown (response_of (Dynamo.gallery 3 (Some "alice") Sample.dynamo))
    = [Sample.dog; Sample.cat].
Proof. split; vm_compute; reflexivity. Qed.

(** The listing of the specification's scenario: two photos of [alice],
    the later one first, in both backends. *)
Example gallery_scenario :
  shown (response_of (Dynamo.gallery 10 (Some "alice") Sample.dynamo))
  = [Sample.dog; Sample.cat]
  ∧ shown (response_of (Mongo.gallery (Some "alice") Sample.mongo))
    = [Sample.dog; Sample.cat].
Proof. split; vm_compute; reflexivity. Qed.

(** * Registration: conflict and uniqueness *)

Lemma filter_key_length_le_1 {T : Type} (f : T → string) (u : string)
    (l : list T) :
  NoDup (f <$> l) → length (filter (λ x, f x = u) l) ≤ 1.
Proof.
  induction l as [|x l IH]; simpl; [lia|].
  intros [Hx Hl]%NoDup_cons. rewrite filter_cons. case_decide as Hu; [|auto].
  assert (filter (λ y, f y = u) l = []) as ->; [|simpl; lia].
  apply filter_none. intros y Hy Hyu.
  apply Hx, list_elem_of_fmap. exists y. split; [congruence|done].
Qed.

Lemma keyed_put_item {T : Type} (key : T → string) (x : T)
    (tbl : gmap string T) :
  keyed key tbl → keyed key (Dynamo.put_item key x tbl).
Proof. intros Hk. by apply map_Forall_insert_2. Qed.

Lemma keyed_values_NoDup {T : Type} (key : T → string) (tbl : gmap string T) :
  keyed key tbl → NoDup (key <$> (map_to_list tbl).*2).
Proof.
  intros Hk. assert (key <$> (map_to_list tbl).*2 = (map_to_list tbl).*1) as ->;
    [|apply NoDup_fst_map_to_list].
  apply map_Forall_to_list in Hk.
  induction Hk as [|[k x] l Hkx _ IH]; [done|].
  rewrite !fmap_cons. simpl in Hkx |- *. by rewrite Hkx, IH.
Qed.

Lemma dynamo_register_keyed sha256_hex m form now (w : Dynamo.stores) :
  keyed User.username (Dynamo.users_tbl w) →
  keyed User.username
    (Dynamo.users_tbl (stores_after (Dynamo.register sha256_hex m form now w))).
Proof.
  intros Hk. unfold Dynamo.register. destruct m; [done|].
  destruct (_ || _); [done|]. case_bool_decide; [done|].
  by apply keyed_put_item.
Qed.

Lemma dynamo_register_all_keyed sha256_hex calls (w : Dynamo.stores) :
  keyed User.username (Dynamo.users_tbl w) →
  keyed User.username
    (Dynamo.users_tbl (dynamo_register_all sha256_hex calls w)).
Proof.
  revert w. induction calls as [|c calls IH]; intros w Hk; [done|].
  change (dynamo_register_all sha256_hex (c :: calls) w)
    with (dynamo_register_all sha256_hex calls
            (stores_after (Dynamo.register sha256_hex POST c.1 c.2 w))).
  apply IH. by apply dynamo_register_keyed.
Qed.

Lemma mongo_register_NoDup sha256_hex m form now (w : Mongo.stores) :
  NoDup (User.username <$> Mongo.users_col w) →
  NoDup (User.username
           <$> Mongo.users_col
                 (stores_after (Mongo.register sha256_hex m form now w))).
Proof.
  intros Hk. unfold Mongo.register. destruct m; [done|].
  destruct (_ || _); [done|]. case_bool_decide; [done|].
  unfold Mongo.insert_one. case_decide as Hin; [done|]. simpl.
  rewrite fmap_app. apply NoDup_app. split; [done|]. split; [|apply NoDup_singleton].
  intros u Hu ->%list_elem_of_singleton. done.
Qed.

Lemma mongo_register_all_NoDup sha256_hex calls (w : Mongo.stores) :
  NoDup (User.username <$> Mongo.users_col w) →
  NoDup (User.username
           <$> Mongo.users_col (mongo_register_all sha256_hex calls w)).
Proof.
  revert w. induction calls as [|c calls IH]; intros w Hk; [done|].
  change (mongo_register_all sha256_hex (c :: calls) w)
    with (mongo_register_all sha256_hex calls
            (stores_after (Mongo.register sha256_hex POST c.1 c.2 w))).
  apply IH. by apply mongo_register_NoDup.
Qed.

Lemma find_one_is_Some {T : Type} (P : T → Prop) `{!∀ x, Decision (P x)}
    (col : list T) (x : T) :
  x ∈ col → P x → is_Some (Mongo.find_one P col).
Proof.
  intros Hx HP. unfold Mongo.find_one.
  destruct (filter P col) as [|y l] eqn:E; [|by eexists].
  assert (x ∈ filter P col) as Hin by (by apply list_elem_of_filter).
  rewrite E in Hin. by apply elem_of_nil in Hin.
Qed.

(** C4.  A registration whose form passes the validation and whose
    username is already present is refused with the conflict message and
    leaves the stores as they were, with no write, whatever the stores
    hold; and from stores that hold at most one record per username, every
    sequence of registrations leads to stores that hold at most one record
    per username.  Both backends. *)
Theorem C4_register_conflict_and_uniqueness (sha256_hex : string → string)
    (form : register_form) (now : string)
    (wA : Dynamo.stores) (wB : Mongo.stores)
    (calls : list (register_form * string)) (u : string) :
  Py.strip (form_username form) ≠ "" →
  Py.strip (form_password form) ≠ "" →
  (is_Some (Dynamo.users_tbl wA !! Py.strip (form_username form)) →
   Dynamo.register sha256_hex POST form now wA
   = mkresult (redirect "register") [("Username already taken.", "danger")]
       [] wA)
  ∧ (Py.strip (form_username form) ∈ User.username <$> Mongo.users_col wB →
     Mongo.register sha256_hex POST form now wB
     = mkresult (redirect "register") [("Username already taken.", "danger")]
         [] wB)
  ∧ (keyed User.username (Dynamo.users_tbl wA) →
     count_user u
       (items_of (Dynamo.users_tbl (dynamo_register_all sha256_hex calls wA)))
     ≤ 1)
  ∧ (NoDup (User.username <$> Mongo.users_col wB) →
     count_user u
       (Mongo.users_col (mongo_register_all sha256_hex calls wB)) ≤ 1).
Proof.
  intros Hu Hp.
  assert (negb (Py.truthy (Py.strip (form_username form)))
          || negb (Py.truthy (Py.strip (form_password form))) = false) as Hv.
  { destruct (Py.strip (form_username form)), (Py.strip (form_password form));
      done. }
  repeat split.
  - intros Hin. unfold Dynamo.register, Dynamo.get_item. rewrite Hv.
    by rewrite bool_decide_eq_true_2.
  - intros (x & Hx & Hin)%list_elem_of_fmap. unfold Mongo.register.
    rewrite Hv. rewrite bool_decide_eq_true_2; [done|].
    by apply (find_one_is_Some _ _ x).
  - intros HkA. apply filter_key_length_le_1, keyed_values_NoDup.
    by apply dynamo_register_all_keyed.
  - intros HnB. apply filter_key_length_le_1. by apply mongo_register_all_NoDup.
Qed.

Lemma C4_register_conflict_and_uniqueness_witness :
  Dynamo.register id POST (mkreg " alice " "pw2" None) "2024-02-01T00:00:00"
    Sample.dynamo
  = mkresult (redirect "register") [("Username already taken.", "danger")] []
      Sample.dynamo
  ∧ Mongo.register id POST (mkreg " alice " "pw2" None) "2024-02-01T00:00:00"
      Sample.mongo
    = mkresult (redirect "register") [("Username already taken.", "danger")] []
        Sample.mongo
  ∧ count_user "carol"
      (items_of
         (Dynamo.users_tbl
            (dynamo_register_all id
               [(mkreg "carol" "a" None, "t1"); (mkreg "carol" "b" None, "t2")]
               Sample.dynamo))) ≤ 1
  ∧ count_user "carol"
      (Mongo.users_col
         (mongo_register_all id
            [(mkreg "carol" "a" None, "t1"); (mkreg "carol" "b" None, "t2")]
            Sample.mongo)) ≤ 1.
Proof.
  destruct (C4_register_conflict_and_uniqueness id
              (mkreg " alice " "pw2" None) "2024-02-01T00:00:00"
              Sample.dynamo Sample.mongo
              [(mkreg "carol" "a" None, "t1"); (mkreg "carol" "b" None, "t2")]
              "carol") as (HA & HB & HcA & HcB).
  - vm_compute. discriminate.
  - vm_compute. discriminate.
  - split; [apply HA; vm_compute; eauto|].
    split; [apply HB; apply (bool_decide_unpack _); vm_compute; exact I|].
    split.
    + apply HcA. repeat apply keyed_put_item. apply map_Forall_empty.
    + apply HcB. apply (bool_decide_unpack _). vm_compute. exact I.
Defined.

(** * Upload: the accepted file names *)

Lemma rsplit1_dot_cases (s : string) :
  (Py.contains s "." = false ∧ Py.rsplit1 s "."%char = [s])
  ∨ (∃ h t, Py.rsplit1 s "."%char = [h; t] ∧ s = h +:+ "." +:+ t
            ∧ Py.contains t "." = false ∧ Py.contains s "." = true).
Proof.
  induction s as [|c s IH]; [by left|].
  destruct IH as [[Hno Hs]|(h & t & Hs & -> & Ht & Hyes)].
  - destruct (decide (c = "."%char)) as [->|Hc].
    + right. exists "", s. simpl. rewrite Hs. destruct s; done.
    + left. simpl. rewrite Hs, Hno.
      rewrite (bool_decide_eq_false_2 (c = "."%char)) by done.
      rewrite (bool_decide_eq_false_2 ("."%char = c)) by done.
      destruct s; done.
  - right. exists (String c h), t. simpl in *. rewrite Hs, Hyes.
    by rewrite orb_true_r.
Qed.

Lemma rsplit1_dot_app (base ext : string) :
  Py.contains ext "." = false →
  Py.rsplit1 (base +:+ "." +:+ ext) "."%char = [base; ext].
Proof.
  intros Hext. change ("." +:+ ext) with (String "."%char ext).
  induction base as [|c base IH]; simpl.
  - destruct (rsplit1_dot_cases ext) as [[_ ->]|(? & ? & _ & _ & _ & ?)];
      [|congruence]. by destruct ext.
  - simpl in IH. by rewrite IH.
Qed.

(** The predicate of both applications, as the extension rule: the name
    has a dot, and what follows its last dot, in lower case, is one of the
    six extensions. *)
Lemma ok_file_iff (name : string) :
  Dynamo._ok_file name = true
  ↔ ∃ base ext, name = base +:+ "." +:+ ext ∧ Py.contains ext "." = false
      ∧ Py.lower ext
        ∈ ({[ "png"; "jpg"; "jpeg"; "gif"; "bmp"; "webp" ]} : gset string).
Proof.
  unfold Dynamo._ok_file. split.
  - intros [Hdot Hext]%andb_true_iff.
    destruct (rsplit1_dot_cases name) as [[? _]|(h & t & Hs & -> & Ht & _)];
      [congruence|].
    rewrite Hs in Hext. simpl in Hext. apply bool_decide_eq_true in Hext.
    by exists h, t.
  - intros (base & ext & -> & Hext & Hin).
    rewrite rsplit1_dot_app by done. simpl.
    rewrite (bool_decide_eq_true_2 _ Hin), andb_true_r.
    destruct (rsplit1_dot_cases (base +:+ "." +:+ ext)) as [[_ Hs]|(?&?&_&_&_&?)];
      [|done].
    rewrite rsplit1_dot_app in Hs by done.
    apply (f_equal length) in Hs. done.
Qed.

Lemma ok_file_truthy (f : FileStorage) :
  file_truthy f && Dynamo._ok_file (filename f) = Dynamo._ok_file (filename f).
Proof. unfold file_truthy. by destruct (filename f). Qed.

Lemma upload_writes_shift accept secure_filename username (uuid4 : nat → string)
    (i : nat) (files : list FileStorage) :
  imap (λ j, upload_writes accept secure_filename username (uuid4 (S i + j)))
    files
  = imap ((λ j, upload_writes accept secure_filename username (uuid4 (i + j)))
          ∘ S) files.
Proof. apply imap_ext. intros j x _. simpl. by rewrite Nat.add_succ_r. Qed.

Lemma dynamo_upload_loop_spec secure_filename username tags desc uuid4 utcnow
    (files : list FileStorage) (i count : nat) (tr : list io)
    (w : Dynamo.stores) :
  ∃ w',
    Dynamo.upload_loop secure_filename username tags desc uuid4 utcnow i
      files count tr w
    = (count + length (filter (λ f, Dynamo._ok_file (filename f)) files),
       tr ++ concat
               (imap (λ j, upload_writes Dynamo._ok_file secure_filename
                             username (uuid4 (i + j))) files),
       w').
Proof.
  revert i count tr w. induction files as [|f files IH]; intros i count tr w.
  - exists w. simpl. by rewrite Nat.add_0_r, app_nil_r.
  - simpl Dynamo.upload_loop. rewrite ok_file_truthy, imap_cons.
    rewrite <- upload_writes_shift.
    unfold upload_writes at 1. rewrite Nat.add_0_r.
    destruct (Dynamo._ok_file (filename f)) eqn:Hok.
    + edestruct IH as [w' ->]. exists w'.
      rewrite filter_cons_True by (by rewrite Hok).
      simpl. rewrite <- app_assoc. simpl. by rewrite Nat.add_succ_r.
    + edestruct IH as [w' ->]. exists w'.
      rewrite filter_cons_False by (rewrite Hok; intros []). done.
Qed.

Lemma NoDup_app_drop_middle {A : Type} (l1 l2 : list A) (x : A) :
  NoDup (l1 ++ x :: l2) → NoDup (l1 ++ l2) ∧ x ∉ l1.
Proof.
  intros Hnd. apply NoDup_app in Hnd as (H1 & Hdis & H2).
  apply NoDup_cons in H2 as [Hx H2]. split.
  - apply NoDup_app. split; [done|]. split; [|done].
    intros y Hy Hy2. apply (Hdis y Hy). by right.
  - intros Hin. apply (Hdis x Hin). left.
Qed.

(** The loop of the document backend, when the identifiers drawn are
    distinct from one another and from those of the collection, so that no
    [insert_one] meets a duplicate key. *)
Lemma mongo_upload_loop_spec secure_filename username tags desc uuid4 utcnow
    (files : list FileStorage) (i count : nat) (tr : list io)
    (w : Mongo.stores) :
  NoDup ((Photo.photo_id <$> Mongo.photos_col w)
         ++ (uuid4 <$> seq i (length files))) →
  ∃ w',
    Mongo.upload_loop secure_filename username tags desc uuid4 utcnow i
      files count tr w
    = (Some (count + length (filter (λ f, Mongo._ok_file (filename f)) files)),
       tr ++ concat
               (imap (λ j, upload_writes Mongo._ok_file secure_filename
                             username (uuid4 (i + j))) files),
       w').
Proof.
  revert i count tr w. induction files as [|f files IH];
    intros i count tr w Hfresh.
  - exists w. simpl. by rewrite Nat.add_0_r, app_nil_r.
  - simpl Mongo.upload_loop. rewrite ok_file_truthy, imap_cons.
    rewrite <- upload_writes_shift.
    unfold upload_writes at 1. rewrite Nat.add_0_r.
    simpl in Hfresh.
    destruct (NoDup_app_drop_middle _ _ _ Hfresh) as [Hrest Hnew].
    change Mongo._ok_file with Dynamo._ok_file in *.
    destruct (Dynamo._ok_file (filename f)) eqn:Hok.
    + unfold Mongo.insert_one. cbn [Photo.photo_id].
      rewrite decide_False by done.
      edestruct IH as [w' ->].
      { cbn [Mongo.photos_col]. rewrite fmap_app, <- app_assoc. exact Hfresh. }
      exists w'. rewrite filter_cons_True by (by rewrite Hok).
      simpl. rewrite <- app_assoc. simpl. by rewrite Nat.add_succ_r.
    + edestruct IH as [w' ->]; [exact Hrest|]. exists w'.
      rewrite filter_cons_False by (rewrite Hok; intros []). done.
Qed.


(** * Upload: the stores afterwards *)

Lemma string_app_inv_head (a x y : string) : a +:+ x = a +:+ y → x = y.
Proof. induction a as [|c a IH]; simpl; [done|]. intros [= H]. by apply IH. Qed.

Lemma string_app_inv_length (p1 p2 r1 r2 : string) :
  String.length p1 = String.length p2 → p1 +:+ r1 = p2 +:+ r2 → p1 = p2.
Proof.
  revert p2. induction p1 as [|c p1 IH]; intros [|d p2]; simpl; try done.
  intros [= Hlen] [= -> Heq]. f_equal. by apply IH.
Qed.

(** Identifiers of one length give different blob keys. *)
Lemma upload_key_inj secure_filename username (p1 p2 : string)
    (f1 f2 : FileStorage) :
  String.length p1 = String.length p2 →
  upload_key secure_filename username p1 f1
  = upload_key secure_filename username p2 f2 →
  p1 = p2.
Proof.
  unfold upload_key. intros Hlen Heq.
  apply (string_app_inv_head "photos/") in Heq.
  apply string_app_inv_head in Heq.
  apply (string_app_inv_head "/") in Heq.
  by apply string_app_inv_length in Heq.
Qed.

Section dynamo_upload_facts.
Context (secure_filename : string → string) (username tags desc : string)
  (uuid4 utcnow : nat → string).

#[local] Abbreviation loop := (Dynamo.upload_loop secure_filename username tags desc
                    uuid4 utcnow).
#[local] Abbreviation record i f :=
  (uploaded_photo secure_filename username tags desc (uuid4 i) (utcnow i) f).
#[local] Abbreviation blob_key i f := (upload_key secure_filename username (uuid4 i) f).

Lemma dynamo_upload_loop_cons i f files count tr (w : Dynamo.stores) :
  loop i (f :: files) count tr w
  = if Dynamo._ok_file (filename f) then
      loop (S i) files (S count)
        (tr ++ [S3Upload (blob_key i f); PutPhoto (uuid4 i)])
        (Dynamo.mkstores (Dynamo.users_tbl w)
           (<[uuid4 i := record i f]> (Dynamo.photos_tbl w))
           (<[blob_key i f := S3.mk (stream f) (content_type f)]>
              (Dynamo.s3 w)))
    else loop (S i) files count tr w.
Proof. simpl. by rewrite ok_file_truthy. Qed.

Lemma dynamo_upload_loop_users files i count tr (w : Dynamo.stores) :
  Dynamo.users_tbl (loop i files count tr w).2 = Dynamo.users_tbl w.
Proof.
  revert i count tr w. induction files as [|f files IH]; intros; [done|].
  rewrite dynamo_upload_loop_cons.
  destruct (Dynamo._ok_file (filename f)); by rewrite IH.
Qed.

(** Records and blobs under keys the upload does not draw are untouched. *)
Lemma dynamo_upload_loop_photos_frame files i count tr (w : Dynamo.stores) k :
  (∀ j f, files !! j = Some f → Dynamo._ok_file (filename f) = true →
          uuid4 (i + j) ≠ k) →
  Dynamo.photos_tbl (loop i files count tr w).2 !! k
  = Dynamo.photos_tbl w !! k.
Proof.
  revert i count tr w. induction files as [|f files IH];
    intros i count tr w Hk; [done|].
  rewrite dynamo_upload_loop_cons.
  assert (∀ j g, files !! j = Some g → Dynamo._ok_file (filename g) = true →
                 uuid4 (S i + j) ≠ k) as Hk'.
  { intros j g Hj Hg. replace (S i + j) with (i + S j) by lia.
    by apply (Hk (S j) g). }
  destruct (Dynamo._ok_file (filename f)) eqn:Hok; rewrite IH by done;
    [|done].
  cbn [Dynamo.photos_tbl]. apply lookup_insert_ne.
  specialize (Hk 0 f eq_refl Hok). by rewrite Nat.add_0_r in Hk.
Qed.

Lemma dynamo_upload_loop_s3_frame files i count tr (w : Dynamo.stores) k :
  (∀ j f, files !! j = Some f → Dynamo._ok_file (filename f) = true →
          blob_key (i + j) f ≠ k) →
  Dynamo.s3 (loop i files count tr w).2 !! k = Dynamo.s3 w !! k.
Proof.
  revert i count tr w. induction files as [|f files IH];
    intros i count tr w Hk; [done|].
  rewrite dynamo_upload_loop_cons.
  assert (∀ j g, files !! j = Some g → Dynamo._ok_file (filename g) = true →
                 blob_key (S i + j) g ≠ k) as Hk'.
  { intros j g Hj Hg. replace (S i + j) with (i + S j) by lia.
    by apply (Hk (S j) g). }
  destruct (Dynamo._ok_file (filename f)) eqn:Hok; rewrite IH by done;
    [|done].
  cbn [Dynamo.s3]. apply lookup_insert_ne.
  specialize (Hk 0 f eq_refl Hok). by rewrite Nat.add_0_r in Hk.
Qed.

(** The record and the blob of an accepted file, when no later accepted
    file draws the same identifier or the same blob key. *)
Lemma dynamo_upload_loop_photo files i count tr (w : Dynamo.stores) j f :
  files !! j = Some f → Dynamo._ok_file (filename f) = true →
  (∀ j' f', j < j' → files !! j' = Some f' →
            Dynamo._ok_file (filename f') = true →
            uuid4 (i + j') ≠ uuid4 (i + j)) →
  Dynamo.photos_tbl (loop i files count tr w).2 !! uuid4 (i + j)
  = Some (record (i + j) f).
Proof.
  revert i count tr w j. induction files as [|g files IH];
    intros i count tr w j Hj Hok Hlater; [done|].
  rewrite dynamo_upload_loop_cons. destruct j as [|j].
  - injection Hj as ->. rewrite Hok, Nat.add_0_r.
    rewrite dynamo_upload_loop_photos_frame.
    + cbn [Dynamo.photos_tbl]. apply lookup_insert_eq.
    + intros j' f' Hj' Hok'. replace (S i + j') with (i + S j') by lia.
      specialize (Hlater (S j') f'). rewrite Nat.add_0_r in Hlater.
      apply Hlater; [lia|done|done].
  - replace (i + S j) with (S i + j) by lia.
    assert (∀ j' f', j < j' → files !! j' = Some f' →
              Dynamo._ok_file (filename f') = true →
              uuid4 (S i + j') ≠ uuid4 (S i + j)) as Hlater'.
    { intros j' f' Hlt Hj' Hok'. replace (S i + j') with (i + S j') by lia.
      replace (S i + j) with (i + S j) by lia.
      apply (Hlater (S j') f'); [lia|done|done]. }
    destruct (Dynamo._ok_file (filename g)); by apply IH.
Qed.

Lemma dynamo_upload_loop_blob files i count tr (w : Dynamo.stores) j f :
  files !! j = Some f → Dynamo._ok_file (filename f) = true →
  (∀ j' f', j < j' → files !! j' = Some f' →
            Dynamo._ok_file (filename f') = true →
            blob_key (i + j') f' ≠ blob_key (i + j) f) →
  Dynamo.s3 (loop i files count tr w).2 !! blob_key (i + j) f
  = Some (S3.mk (stream f) (content_type f)).
Proof.
  revert i count tr w j. induction files as [|g files IH];
    intros i count tr w j Hj Hok Hlater; [done|].
  rewrite dynamo_upload_loop_cons. destruct j as [|j].
  - injection Hj as ->. rewrite Hok, Nat.add_0_r.
    rewrite dynamo_upload_loop_s3_frame.
    + cbn [Dynamo.s3]. apply lookup_insert_eq.
    + intros j' f' Hj' Hok'. replace (S i + j') with (i + S j') by lia.
      specialize (Hlater (S j') f'). rewrite Nat.add_0_r in Hlater.
      apply Hlater; [lia|done|done].
  - replace (i + S j) with (S i + j) by lia.
    assert (∀ j' f', j < j' → files !! j' = Some f' →
              Dynamo._ok_file (filename f') = true →
              blob_key (S i + j') f' ≠ blob_key (S i + j) f) as Hlater'.
    { intros j' f' Hlt Hj' Hok'. replace (S i + j') with (i + S j') by lia.
      replace (S i + j) with (i + S j) by lia.
      apply (Hlater (S j') f'); [lia|done|done]. }
    destruct (Dynamo._ok_file (filename g)); by apply IH.
Qed.

End dynamo_upload_facts.

Section mongo_upload_facts.
Context (secure_filename : string → string) (username tags desc : string)
  (uuid4 utcnow : nat → string).

#[local] Abbreviation loopA :=
  (Dynamo.upload_loop secure_filename username tags desc uuid4 utcnow).
#[local] Abbreviation loopB :=
  (Mongo.upload_loop secure_filename username tags desc uuid4 utcnow).
#[local] Abbreviation docs :=
  (upload_docs secure_filename username tags desc uuid4 utcnow).
#[local] Abbreviation record i f :=
  (uploaded_photo secure_filename username tags desc (uuid4 i) (utcnow i) f).

Lemma upload_docs_cons i f files :
  docs i (f :: files)
  = (if Dynamo._ok_file (filename f) then [record i f] else [])
    ++ docs (S i) files.
Proof.
  unfold upload_docs. rewrite imap_cons. simpl. rewrite Nat.add_0_r.
  f_equal. f_equal. apply imap_ext. intros j x _. simpl.
  by replace (i + S j) with (S (i + j)) by lia.
Qed.

Lemma upload_docs_ids i files :
  Photo.photo_id <$> docs i files `sublist_of` uuid4 <$> seq i (length files).
Proof.
  revert i. induction files as [|f files IH]; intros i; [done|].
  rewrite upload_docs_cons, fmap_app. simpl.
  destruct (Dynamo._ok_file (filename f)); simpl.
  - by apply sublist_skip.
  - by apply sublist_cons.
Qed.

Lemma upload_docs_elem i files j f :
  files !! j = Some f → Dynamo._ok_file (filename f) = true →
  record (i + j) f ∈ docs i files.
Proof.
  revert i j. induction files as [|g files IH]; intros i j Hj Hok; [done|].
  rewrite upload_docs_cons, elem_of_app. destruct j as [|j].
  - injection Hj as ->. left. rewrite Hok, Nat.add_0_r. left.
  - right. replace (i + S j) with (S i + j) by lia. by apply IH.
Qed.

Lemma upload_docs_owner i files p :
  p ∈ docs i files → Photo.username p = username.
Proof.
  revert i. induction files as [|g files IH]; intros i.
  - by intros ?%elem_of_nil.
  - rewrite upload_docs_cons, elem_of_app. intros [Hp|Hp]; [|by eapply IH].
    destruct (Dynamo._ok_file (filename g)); [|by apply elem_of_nil in Hp].
    by apply list_elem_of_singleton in Hp as ->.
Qed.

(** The loop of the document backend, for identifiers that meet no
    duplicate: it ends normally, appends the records of the accepted files
    to the collection, and writes the blobs the loop of the key-value
    backend writes. *)
Lemma mongo_upload_loop_stores files i count tr (w : Mongo.stores)
    countA trA (wA : Dynamo.stores) :
  NoDup ((Photo.photo_id <$> Mongo.photos_col w)
         ++ (uuid4 <$> seq i (length files))) →
  Dynamo.s3 wA = Mongo.s3 w →
  (loopB i files count tr w).2
  = Mongo.mkstores (Mongo.users_col w) (Mongo.photos_col w ++ docs i files)
      (Dynamo.s3 (loopA i files countA trA wA).2).
Proof.
  revert i count tr w countA trA wA. induction files as [|f files IH];
    intros i count tr w countA trA wA Hfresh Hs3.
  - simpl. rewrite app_nil_r, Hs3. by destruct w.
  - rewrite dynamo_upload_loop_cons, upload_docs_cons.
    simpl Mongo.upload_loop. rewrite ok_file_truthy.
    simpl in Hfresh.
    destruct (NoDup_app_drop_middle _ _ _ Hfresh) as [Hrest Hnew].
    change Mongo._ok_file with Dynamo._ok_file.
    destruct (Dynamo._ok_file (filename f)) eqn:Hok.
    + unfold Mongo.insert_one. cbn [Photo.photo_id].
      rewrite decide_False by done.
      rewrite (IH _ _ _ _ (S countA)
                 (trA ++ [S3Upload (upload_key secure_filename username
                                      (uuid4 i) f); PutPhoto (uuid4 i)])
                 (Dynamo.mkstores (Dynamo.users_tbl wA)
                    (<[uuid4 i := record i f]> (Dynamo.photos_tbl wA))
                    (<[upload_key secure_filename username (uuid4 i) f
                       := S3.mk (stream f) (content_type f)]> (Dynamo.s3 wA)))).
      * cbn [Mongo.users_col Mongo.photos_col]. by rewrite <- app_assoc.
      * cbn [Mongo.photos_col]. rewrite fmap_app, <- app_assoc. exact Hfresh.
      * cbn [Dynamo.s3 Mongo.s3]. by rewrite Hs3.
    + by rewrite (IH _ _ _ _ countA trA wA).
Qed.

End mongo_upload_facts.

Lemma NoDup_fmap_seq_inj (f : nat → string) (n i j : nat) :
  NoDup (f <$> seq 0 n) → i < n → j < n → f i = f j → i = j.
Proof.
  intros Hnd Hi Hj Heq.
  apply (NoDup_lookup _ i j (f i) Hnd).
  - rewrite list_lookup_fmap, lookup_seq_lt by done. done.
  - rewrite list_lookup_fmap, lookup_seq_lt by done. simpl. by rewrite Heq.
Qed.

Section upload_stores.
Context (secure_filename : string → string) (username tags desc : string)
  (uuid4 utcnow : nat → string).

#[local] Abbreviation docs_of :=
  (upload_docs secure_filename username tags desc uuid4 utcnow).
#[local] Abbreviation blobs_of := (upload_blobs secure_filename username uuid4).

Lemma upload_blobs_cons i f files :
  blobs_of i (f :: files)
  = (if Dynamo._ok_file (filename f) then
       [(upload_key secure_filename username (uuid4 i) f,
         S3.mk (stream f) (content_type f))]
     else [])
    ++ blobs_of (S i) files.
Proof.
  unfold upload_blobs. rewrite imap_cons. simpl. rewrite Nat.add_0_r.
  f_equal. f_equal. apply imap_ext. intros j x _. simpl.
  by replace (i + S j) with (S (i + j)) by lia.
Qed.

(** The records and the blobs of an upload are those of its accepted
    files. *)
Lemma upload_docs_elem_iff i files p :
  p ∈ docs_of i files
  ↔ ∃ j f, files !! j = Some f ∧ Dynamo._ok_file (filename f) = true
           ∧ p = uploaded_photo secure_filename username tags desc
                   (uuid4 (i + j)) (utcnow (i + j)) f.
Proof.
  revert i. induction files as [|g files IH]; intros i.
  { split; [by intros ?%elem_of_nil|by intros (j & f & ? & _)]. }
  rewrite upload_docs_cons, elem_of_app, IH. split.
  - intros [Hp|(j & f & Hj & Hok & ->)].
    + destruct (Dynamo._ok_file (filename g)) eqn:Hg;
        [|by apply elem_of_nil in Hp].
      apply list_elem_of_singleton in Hp as ->.
      exists 0, g. by rewrite Nat.add_0_r.
    + exists (S j), f. by replace (i + S j) with (S i + j) by lia.
  - intros ([|j] & f & Hj & Hok & ->).
    + injection Hj as ->. left. rewrite Hok, Nat.add_0_r. left.
    + right. exists j, f. by replace (i + S j) with (S i + j) by lia.
Qed.

Lemma upload_blobs_elem_iff i files kv :
  kv ∈ blobs_of i files
  ↔ ∃ j f, files !! j = Some f ∧ Dynamo._ok_file (filename f) = true
           ∧ kv = (upload_key secure_filename username (uuid4 (i + j)) f,
                   S3.mk (stream f) (content_type f)).
Proof.
  revert i. induction files as [|g files IH]; intros i.
  { split; [by intros ?%elem_of_nil|by intros (j & f & ? & _)]. }
  rewrite upload_blobs_cons, elem_of_app, IH. split.
  - intros [Hp|(j & f & Hj & Hok & ->)].
    + destruct (Dynamo._ok_file (filename g)) eqn:Hg;
        [|by apply elem_of_nil in Hp].
      apply list_elem_of_singleton in Hp as ->.
      exists 0, g. by rewrite Nat.add_0_r.
    + exists (S j), f. by replace (i + S j) with (S i + j) by lia.
  - intros ([|j] & f & Hj & Hok & ->).
    + injection Hj as ->. left. rewrite Hok, Nat.add_0_r. left.
    + right. exists j, f. by replace (i + S j) with (S i + j) by lia.
Qed.

(** The stores after the loop of the key-value backend: the records of
    the accepted files put in turn, their blobs written in turn. *)
Lemma dynamo_upload_loop_stores files i count tr (w : Dynamo.stores) :
  (Dynamo.upload_loop secure_filename username tags desc uuid4 utcnow i
     files count tr w).2
  = Dynamo.mkstores (Dynamo.users_tbl w)
      (put_all Photo.photo_id (docs_of i files) (Dynamo.photos_tbl w))
      (put_blobs (blobs_of i files) (Dynamo.s3 w)).
Proof.
  revert i count tr w. induction files as [|f files IH];
    intros i count tr w; [by destruct w|].
  rewrite dynamo_upload_loop_cons, upload_docs_cons, upload_blobs_cons.
  destruct (Dynamo._ok_file (filename f)); by rewrite IH.
Qed.

(** The stores after the loop of the document backend, for identifiers
    that meet no duplicate: the records appended, the blobs written. *)
Lemma mongo_upload_loop_appends files i count tr (w : Mongo.stores) :
  NoDup ((Photo.photo_id <$> Mongo.photos_col w)
         ++ (uuid4 <$> seq i (length files))) →
  (Mongo.upload_loop secure_filename username tags desc uuid4 utcnow i
     files count tr w).2
  = Mongo.mkstores (Mongo.users_col w)
      (Mongo.photos_col w ++ docs_of i files)
      (put_blobs (blobs_of i files) (Mongo.s3 w)).
Proof.
  intros Hfresh.
  rewrite (mongo_upload_loop_stores secure_filename username tags desc uuid4
             utcnow files i count tr w 0 []
             (Dynamo.mkstores ∅ ∅ (Mongo.s3 w))) by done.
  by rewrite dynamo_upload_loop_stores.
Qed.

(** When no file is accepted, the loops write nothing. *)
Lemma upload_loops_none_accepted files i count tr
    (wA : Dynamo.stores) (wB : Mongo.stores) :
  (∀ f, f ∈ files → Dynamo._ok_file (filename f) = false) →
  Dynamo.upload_loop secure_filename username tags desc uuid4 utcnow i
    files count tr wA = (count, tr, wA)
  ∧ Mongo.upload_loop secure_filename username tags desc uuid4 utcnow i
      files count tr wB = (Some count, tr, wB).
Proof.
  revert i. induction files as [|f files IH]; intros i Hnone; [done|].
  simpl. change Mongo._ok_file with Dynamo._ok_file.
  rewrite ok_file_truthy, (Hnone f) by left.
  apply IH. intros g Hg. apply Hnone. by right.
Qed.

End upload_stores.

(** * Upload: what is written, and when *)




(** * Migration: the paginated scan *)

Section scan_all_facts.
Context {T : Type}.
Implicit Types (tbl : gmap string T) (l : list (string * T)).

Lemma filter_True_id (l : list T) : filter (λ _, True) l = l.
Proof.
  induction l as [|x l IH]; [done|]. by rewrite filter_cons_True, IH.
Qed.

Lemma after_key_app l1 kv l2 :
  kv.1 ∉ l1.*1 → Dynamo.after_key kv.1 (l1 ++ kv :: l2) = l2.
Proof.
  induction l1 as [|kv' l1 IH]; simpl; intros Hnin.
  - by rewrite decide_True.
  - apply not_elem_of_cons in Hnin as [Hne Hnin].
    rewrite decide_False by congruence. by apply IH.
Qed.

(** The loop from any point of the enumeration: when the items before
    [l2] have been read, the loop returns them followed by [l2]. *)
Lemma scan_pages_from limit tbl fuel l1 l2 (items : list T) last_key :
  0 < limit →
  map_to_list tbl = l1 ++ l2 →
  (last_key = None ∧ l1 = []
   ∨ ∃ l1' kv, l1 = l1' ++ [kv] ∧ last_key = Some kv.1) →
  length l2 < fuel →
  Migration.scan_pages limit fuel tbl items last_key = Some (items ++ l2.*2).
Proof.
  intros Hlimit. revert l1 l2 items last_key.
  induction fuel as [|fuel IH]; intros l1 l2 items last_key Hall Hkey Hfuel;
    [lia|].
  assert (match last_key with
          | None => map_to_list tbl
          | Some k => Dynamo.after_key k (map_to_list tbl)
          end = l2) as Hrest.
  { destruct Hkey as [[-> ->]|(l1' & kv & -> & ->)]; [done|].
    rewrite Hall, <- app_assoc. apply after_key_app.
    pose proof (NoDup_fst_map_to_list tbl) as Hnd.
    rewrite Hall, <- app_assoc, fmap_app in Hnd.
    apply NoDup_app in Hnd as (_ & Hdis & _). intros Hin.
    apply (Hdis _ Hin). simpl. left. }
  simpl. unfold Dynamo.scan. simpl. rewrite Hrest, filter_True_id.
  destruct (drop limit l2) as [|d ds] eqn:Hdrop.
  - apply drop_nil_inv in Hdrop. by rewrite take_ge.
  - assert (limit < length l2) as Hlt.
    { destruct (decide (limit < length l2)); [done|].
      rewrite drop_ge in Hdrop by lia. done. }
    destruct (take limit l2) as [|kv page _] eqn:Htake using rev_ind.
    { apply (f_equal length) in Htake. rewrite length_take in Htake.
      simpl in Htake. lia. }
    rewrite last_snoc. simpl.
    rewrite (IH (l1 ++ page ++ [kv]) (d :: ds)).
    + rewrite <- app_assoc. do 2 f_equal.
      rewrite <- fmap_app, <- Hdrop, <- Htake. by rewrite take_drop.
    + rewrite Hall, <- app_assoc. f_equal.
      rewrite <- Htake, <- Hdrop. by rewrite take_drop.
    + right. exists (l1 ++ page), kv. by rewrite app_assoc.
    + rewrite <- Hdrop, length_drop. lia.
Qed.

(** The paginated scan terminates and returns every item of the table. *)
Lemma scan_all_complete limit tbl :
  0 < limit → Migration.scan_all limit tbl = Some (map_to_list tbl).*2.
Proof.
  intros Hlimit. unfold Migration.scan_all.
  rewrite (scan_pages_from limit tbl _ [] (map_to_list tbl)); try done.
  - by left.
  - rewrite length_map_to_list. lia.
Qed.

End scan_all_facts.

(** * Migration: the bulk upsert *)

Section upsert_facts.
Context {T : Type} `{!EqDecision T} (key : T → string).
Implicit Types (x d : T) (col xs : list T) (k : string).

Lemma filter_iff_elem (P Q : T → Prop) `{!∀ x, Decision (P x)}
    `{!∀ x, Decision (Q x)} (l : list T) :
  (∀ x, x ∈ l → P x ↔ Q x) → filter P l = filter Q l.
Proof.
  induction l as [|y l IH]; intros Hpq; [done|].
  rewrite !filter_cons, IH by (intros; apply Hpq; by right).
  destruct (decide (P y)) as [Hp|Hp], (decide (Q y)) as [Hq|Hq]; try done;
    exfalso; apply (Hpq y) in Hp || apply (Hpq y) in Hq; try done; by left.
Qed.

Lemma stored_cons k d col :
  stored key k (d :: col) = if decide (key d = k) then Some d else stored key k col.
Proof.
  unfold stored, Mongo.find_one. rewrite filter_cons. by case_decide.
Qed.

Lemma stored_None k col : stored key k col = None ↔ k ∉ key <$> col.
Proof.
  induction col as [|d col IH]; [by split; [intros _ ?%elem_of_nil|]|].
  rewrite stored_cons, fmap_cons, not_elem_of_cons.
  destruct (decide (key d = k)) as [Hd|Hd].
  - split; [done|]. intros [Hne _]. by destruct Hne.
  - rewrite IH. split; [by split|by intros [_ ?]].
Qed.

Lemma stored_Some k d col : stored key k col = Some d → key d = k ∧ d ∈ col.
Proof.
  induction col as [|d' col IH]; [done|]. rewrite stored_cons.
  case_decide; [intros [= ->]; split; [done|left]|].
  intros [? ?]%IH. split; [done|by right].
Qed.

(** [replace_first] and the upsert of the bulk write are the function
    [upsert]. *)
Lemma replace_first_spec x col :
  Mongo.replace_first key (key x) x col
  = match stored key (key x) col with
    | Some _ => Some (upsert key x col)
    | None => None
    end
  ∧ (stored key (key x) col = None → upsert key x col = col ++ [x]).
Proof.
  induction col as [|d col [IH1 IH2]]; [done|].
  simpl. rewrite stored_cons. case_decide as Hd; [done|].
  rewrite IH1. split; [by destruct (stored key (key x) col)|].
  intros Hnone. by rewrite IH2.
Qed.

Lemma write_one_spec x col (r : Mongo.BulkWriteResult) :
  Mongo.write_one key (col, r) (Mongo.mkop (key x) x true)
  = (upsert key x col,
     match stored key (key x) col with
     | Some _ =>
         Mongo.mkbulk (Mongo.upserted_count r) (S (Mongo.matched_count r))
           (S (Mongo.modified_count r))
     | None =>
         Mongo.mkbulk (S (Mongo.upserted_count r)) (Mongo.matched_count r)
           (Mongo.modified_count r)
     end).
Proof.
  unfold Mongo.write_one. simpl.
  destruct (replace_first_spec x col) as [-> Hnone].
  destruct (stored key (key x) col); [done|]. by rewrite Hnone.
Qed.

Lemma stored_upsert_eq x col : stored key (key x) (upsert key x col) = Some x.
Proof.
  induction col as [|d col IH]; simpl.
  - by rewrite stored_cons, decide_True.
  - case_decide as Hd; rewrite stored_cons.
    + by rewrite decide_True.
    + by rewrite decide_False.
Qed.

Lemma stored_upsert_ne k x col :
  k ≠ key x → stored key k (upsert key x col) = stored key k col.
Proof.
  intros Hk. induction col as [|d col IH]; simpl.
  - by rewrite stored_cons, decide_False.
  - case_decide as Hd; rewrite !stored_cons.
    + rewrite !decide_False by congruence. done.
    + by rewrite IH.
Qed.

Lemma upsert_same x col : stored key (key x) col = Some x → upsert key x col = col.
Proof.
  induction col as [|d col IH]; [done|]. rewrite stored_cons. simpl.
  case_decide; [by intros [= ->]|]. intros ?%IH. congruence.
Qed.

Lemma upsert_cons x d col :
  upsert key x (d :: col)
  = if decide (key d = key x) then x :: col else d :: upsert key x col.
Proof. done. Qed.

Lemma upsert_keys x col :
  key <$> upsert key x col
  = if decide (key x ∈ key <$> col) then key <$> col else (key <$> col) ++ [key x].
Proof.
  induction col as [|d col IH].
  - rewrite decide_False; [done|]. apply not_elem_of_nil.
  - rewrite upsert_cons. destruct (decide (key d = key x)) as [Hd|Hd].
    + rewrite decide_True
        by (apply list_elem_of_fmap; exists d; split; [done|left]).
      by rewrite !fmap_cons, Hd.
    + rewrite !fmap_cons, IH.
      destruct (decide (key x ∈ key <$> col)) as [Hin|Hin].
      * rewrite decide_True by (by right). done.
      * rewrite decide_False; [done|].
        rewrite not_elem_of_cons. split; [congruence|done].
Qed.

Lemma upsert_length x col :
  length (upsert key x col)
  = match stored key (key x) col with
    | Some _ => length col
    | None => S (length col)
    end.
Proof.
  induction col as [|d col IH]; [done|]. simpl. rewrite stored_cons.
  case_decide; simpl; [done|]. rewrite IH.
  by destruct (stored key (key x) col).
Qed.

Lemma upsert_all_cons x xs col :
  upsert_all key (x :: xs) col = upsert_all key xs (upsert key x col).
Proof. done. Qed.

Lemma stored_upsert_all_other k xs col :
  k ∉ key <$> xs → stored key k (upsert_all key xs col) = stored key k col.
Proof.
  revert col. induction xs as [|x xs IH]; intros col Hk; [done|].
  rewrite fmap_cons, not_elem_of_cons in Hk. destruct Hk as [Hx Hxs].
  rewrite upsert_all_cons, IH by done. by apply stored_upsert_ne.
Qed.

Lemma stored_upsert_all x xs col :
  NoDup (key <$> xs) → x ∈ xs → stored key (key x) (upsert_all key xs col) = Some x.
Proof.
  revert col. induction xs as [|y xs IH]; intros col Hnd Hx;
    [by apply elem_of_nil in Hx|].
  rewrite fmap_cons in Hnd. apply NoDup_cons in Hnd as [Hy Hnd].
  rewrite upsert_all_cons. apply elem_of_cons in Hx as [->|Hx].
  - rewrite stored_upsert_all_other by done. apply stored_upsert_eq.
  - by apply IH.
Qed.

Lemma upsert_all_same xs col :
  (∀ x, x ∈ xs → stored key (key x) col = Some x) → upsert_all key xs col = col.
Proof.
  induction xs as [|x xs IH]; intros Hall; [done|].
  rewrite upsert_all_cons, upsert_same by (apply Hall; left).
  apply IH. intros y Hy. apply Hall. by right.
Qed.

Lemma upsert_all_keys xs col :
  NoDup (key <$> col) →
  NoDup (key <$> upsert_all key xs col)
  ∧ ∀ k, k ∈ key <$> upsert_all key xs col ↔ k ∈ key <$> col ∨ k ∈ key <$> xs.
Proof.
  revert col. induction xs as [|x xs IH]; intros col Hnd.
  - split; [done|]. intros k. rewrite fmap_nil, elem_of_nil. tauto.
  - rewrite upsert_all_cons.
    assert (NoDup (key <$> upsert key x col)) as Hnd'.
    { rewrite upsert_keys. case_decide as Hin; [done|].
      apply NoDup_app. split; [done|]. split; [|apply NoDup_singleton].
      intros k Hk ->%list_elem_of_singleton. done. }
    destruct (IH _ Hnd') as [Hnd'' Hiff]. split; [done|].
    intros k. rewrite Hiff, upsert_keys, fmap_cons, elem_of_cons.
    case_decide as Hin.
    + split; [tauto|]. intros [?|[->|?]]; tauto.
    + rewrite elem_of_app, list_elem_of_singleton. tauto.
Qed.

Lemma counts_upsert_other x xs col :
  key x ∉ key <$> xs →
  absent_count key xs (upsert key x col) = absent_count key xs col
  ∧ present_count key xs (upsert key x col) = present_count key xs col.
Proof.
  intros Hx. unfold absent_count, present_count.
  assert (∀ y, y ∈ xs →
            stored key (key y) (upsert key x col) = stored key (key y) col)
    as Hsame.
  { intros y Hy. apply stored_upsert_ne. intros Heq. apply Hx.
    rewrite <- Heq. apply list_elem_of_fmap. by exists y. }
  split; f_equal; apply filter_iff_elem; intros y Hy; by rewrite Hsame.
Qed.

(** Every scanned record is counted once: its key was absent or present. *)
Lemma absent_present_count xs col :
  absent_count key xs col + present_count key xs col = length xs.
Proof.
  unfold absent_count, present_count.
  induction xs as [|x xs IH]; [done|]. rewrite !filter_cons.
  destruct (stored key (key x) col) as [d|].
  - rewrite decide_False by done. rewrite decide_True by eauto.
    simpl. lia.
  - rewrite decide_True by done. rewrite decide_False by (by intros [? ?]).
    simpl. lia.
Qed.

(** The collection grows by the records whose key it did not hold. *)
Lemma upsert_all_length xs col :
  NoDup (key <$> xs) →
  length (upsert_all key xs col) = length col + absent_count key xs col.
Proof.
  revert col. induction xs as [|x xs IH]; intros col Hnd.
  { unfold absent_count. simpl. lia. }
  rewrite fmap_cons in Hnd. apply NoDup_cons in Hnd as [Hx Hnd].
  rewrite upsert_all_cons, IH by done.
  destruct (counts_upsert_other x xs col Hx) as [-> _].
  rewrite upsert_length. unfold absent_count. rewrite filter_cons.
  destruct (stored key (key x) col) as [d|].
  - by rewrite decide_False.
  - rewrite decide_True by done. simpl. lia.
Qed.

Lemma foldl_step {A B : Type} (f : A → B → A) (a : A) (b : B) (l : list B) :
  foldl f a (b :: l) = foldl f (f a b) l.
Proof. done. Qed.

(** The bulk write of the upserts of [xs], records of distinct keys. *)
Lemma bulk_write_spec xs col (r : Mongo.BulkWriteResult) :
  NoDup (key <$> xs) →
  foldl (Mongo.write_one key) (col, r)
    ((λ x, Mongo.mkop (key x) x true) <$> xs)
  = (upsert_all key xs col,
     Mongo.mkbulk
       (Mongo.upserted_count r + absent_count key xs col)
       (Mongo.matched_count r + present_count key xs col)
       (Mongo.modified_count r + present_count key xs col)).
Proof.
  revert col r. induction xs as [|x xs IH]; intros col r Hnd.
  - destruct r. simpl. by rewrite !Nat.add_0_r.
  - rewrite fmap_cons in Hnd. apply NoDup_cons in Hnd as [Hx Hnd].
    rewrite fmap_cons, upsert_all_cons, foldl_step.
    rewrite write_one_spec, IH by done.
    destruct (counts_upsert_other x xs col Hx) as [-> ->].
    unfold absent_count, present_count. rewrite !filter_cons.
    destruct (stored key (key x) col) as [d|] eqn:Hst.
    + rewrite decide_False by done. rewrite decide_True by eauto.
      simpl. f_equal. f_equal; lia.
    + rewrite decide_True by done. rewrite decide_False by (by intros [? ?]).
      simpl. f_equal. f_equal; lia.
Qed.

End upsert_facts.

(** * Migration: what a run does *)

Lemma keyed_values_keys {T : Type} (key : T → string) (tbl : gmap string T) :
  keyed key tbl → key <$> items_of tbl = (map_to_list tbl).*1.
Proof.
  intros Hk. unfold items_of. apply map_Forall_to_list in Hk.
  induction Hk as [|[k x] l Hkx _ IH]; [done|].
  rewrite !fmap_cons. simpl in Hkx |- *. by rewrite Hkx, IH.
Qed.

Lemma items_of_length {T : Type} (tbl : gmap string T) :
  length (items_of tbl) = size tbl.
Proof. unfold items_of. by rewrite length_fmap, length_map_to_list. Qed.

(** The paginated scan of the migration terminates, for every page size
    above zero, with every item of the table, each once. *)
Theorem scan_all_returns_every_item {T : Type} (limit : nat)
    (tbl : gmap string T) :
  0 < limit →
  Migration.scan_all limit tbl = Some (items_of tbl)
  ∧ length (items_of tbl) = size tbl
  ∧ ∀ x, x ∈ items_of tbl ↔ ∃ k, tbl !! k = Some x.
Proof.
  intros Hlimit. split; [by apply scan_all_complete|].
  split; [apply items_of_length|]. intros x. apply map_to_list_values_elem.
Qed.

Lemma scan_all_returns_every_item_witness :
  Migration.scan_all 2 Sample.photos_table
  = Some [Sample.hat; Sample.cat; Sample.dog].
Proof.
  destruct (scan_all_returns_every_item 2 Sample.photos_table) as [-> _];
    [lia|].
  vm_compute. reflexivity.
Defined.

Lemma migrate_users_spec limit src db :
  0 < limit → keyed User.username (Migration.TBL_USERS src) →
  Migration.migrate_users limit src db
  = Some (Migration.mkdb
            (upsert_all User.username (items_of (Migration.TBL_USERS src))
               (Migration.users db))
            (Migration.photos db),
          report User.username (items_of (Migration.TBL_USERS src))
            (Migration.users db)).
Proof.
  intros Hlimit Hk. unfold Migration.migrate_users.
  rewrite scan_all_complete by done.
  pose proof (keyed_values_NoDup _ _ Hk) as Hnd. fold (items_of (Migration.TBL_USERS src)) in *.
  destruct (items_of (Migration.TBL_USERS src)) as [|x xs] eqn:E;
    [by destruct db|].
  unfold Mongo.bulk_write. rewrite bulk_write_spec by done. done.
Qed.

Lemma migrate_photos_spec limit src db :
  0 < limit → keyed Photo.photo_id (Migration.TBL_PHOTOS src) →
  Migration.migrate_photos limit src db
  = Some (Migration.mkdb (Migration.users db)
            (upsert_all Photo.photo_id (items_of (Migration.TBL_PHOTOS src))
               (Migration.photos db)),
          report Photo.photo_id (items_of (Migration.TBL_PHOTOS src))
            (Migration.photos db)).
Proof.
  intros Hlimit Hk. unfold Migration.migrate_photos.
  rewrite scan_all_complete by done.
  pose proof (keyed_values_NoDup _ _ Hk) as Hnd. fold (items_of (Migration.TBL_PHOTOS src)) in *.
  destruct (items_of (Migration.TBL_PHOTOS src)) as [|x xs] eqn:E;
    [by destruct db|].
  unfold Mongo.bulk_write. rewrite bulk_write_spec by done. done.
Qed.

Lemma main_spec limit src db :
  0 < limit → keyed User.username (Migration.TBL_USERS src) →
  keyed Photo.photo_id (Migration.TBL_PHOTOS src) →
  Migration.main limit src db
  = Some (Migration.mkdb
            (upsert_all User.username (items_of (Migration.TBL_USERS src))
               (Migration.users db))
            (upsert_all Photo.photo_id (items_of (Migration.TBL_PHOTOS src))
               (Migration.photos db)),
          report User.username (items_of (Migration.TBL_USERS src))
            (Migration.users db)
          ++ report Photo.photo_id (items_of (Migration.TBL_PHOTOS src))
               (Migration.photos db)).
Proof.
  intros Hlimit Hku Hkp. unfold Migration.main.
  by rewrite migrate_users_spec, migrate_photos_spec.
Qed.

(** C3.  One run of the migration reads every record of both tables, by a
    scan that follows the continuation key until a response carries none,
    and afterwards the destination holds, under the natural key of every
    record scanned, a document equal to it field by field. *)
Theorem C3_migration_copies_every_record (limit : nat)
    (src : Migration.source) (db : Migration.database) :
  0 < limit →
  keyed User.username (Migration.TBL_USERS src) →
  keyed Photo.photo_id (Migration.TBL_PHOTOS src) →
  ∃ db' out,
    Migration.main limit src db = Some (db', out)
    ∧ Migration.scan_all limit (Migration.TBL_USERS src)
      = Some (items_of (Migration.TBL_USERS src))
    ∧ Migration.scan_all limit (Migration.TBL_PHOTOS src)
      = Some (items_of (Migration.TBL_PHOTOS src))
    ∧ (∀ k u, Migration.TBL_USERS src !! k = Some u →
              u ∈ items_of (Migration.TBL_USERS src))
    ∧ (∀ k p, Migration.TBL_PHOTOS src !! k = Some p →
              p ∈ items_of (Migration.TBL_PHOTOS src))
    ∧ (∀ u, u ∈ items_of (Migration.TBL_USERS src) →
            Mongo.find_one (λ d, User.username d = User.username u)
              (Migration.users db') = Some u)
    ∧ (∀ p, p ∈ items_of (Migration.TBL_PHOTOS src) →
            Mongo.find_one (λ d, Photo.photo_id d = Photo.photo_id p)
              (Migration.photos db') = Some p).
Proof.
  intros Hlimit Hku Hkp. eexists _, _.
  split; [by apply main_spec|].
  split; [by apply scan_all_complete|]. split; [by apply scan_all_complete|].
  split; [intros k u Hu; apply map_to_list_values_elem; eauto|].
  split; [intros k p Hp; apply map_to_list_values_elem; eauto|].
  split; intros x Hin; simpl.
  - apply (stored_upsert_all User.username); [|done].
    by apply keyed_values_NoDup.
  - apply (stored_upsert_all Photo.photo_id); [|done].
    by apply keyed_values_NoDup.
Qed.

Lemma sample_source_keyed :
  keyed User.username (Migration.TBL_USERS Sample.source)
  ∧ keyed Photo.photo_id (Migration.TBL_PHOTOS Sample.source).
Proof.
  split; repeat apply keyed_put_item; apply map_Forall_empty.
Qed.

Lemma C3_migration_copies_every_record_witness :
  0 < 2
  ∧ ∃ db' out,
      Migration.main 2 Sample.source Sample.fresh_db = Some (db', out)
      ∧ Mongo.find_one (λ d, User.username d = "alice") (Migration.users db')
        = Some Sample.alice
      ∧ Mongo.find_one (λ d, Photo.photo_id d = "p3") (Migration.photos db')
        = Some Sample.hat.
Proof.
  split; [lia|].
  destruct (C3_migration_copies_every_record 2 Sample.source Sample.fresh_db)
    as (db' & out & Hmain & _ & _ & Hiu & Hip & Hu & Hp);
    [lia | apply sample_source_keyed | apply sample_source_keyed |].
  exists db', out. split; [exact Hmain|]. split.
  - apply (Hu Sample.alice), (Hiu "alice"). vm_compute. reflexivity.
  - apply (Hp Sample.hat), (Hip "p3"). vm_compute. reflexivity.
Defined.

(** C9, as the code has it.  For each table, users then photos, a run
    prints the number of items found and, when there is at least one, two
    counts: the scanned records whose natural key the destination did not
    hold before the run, which are the records the run adds to the
    collection, and the scanned records whose natural key it held, which
    the run writes over the document of that key.  Every scanned record
    is counted in exactly one of the two.  For an empty table the run prints
    the number found and no counts. *)
Theorem C9_migration_report (limit : nat) (src : Migration.source)
    (db : Migration.database) :
  0 < limit →
  keyed User.username (Migration.TBL_USERS src) →
  keyed Photo.photo_id (Migration.TBL_PHOTOS src) →
  let us := items_of (Migration.TBL_USERS src) in
  let ps := items_of (Migration.TBL_PHOTOS src) in
  let new_users := absent_count User.username us (Migration.users db) in
  let old_users := present_count User.username us (Migration.users db) in
  let new_photos := absent_count Photo.photo_id ps (Migration.photos db) in
  let old_photos := present_count Photo.photo_id ps (Migration.photos db) in
  ∃ db',
    Migration.main limit src db
    = Some (db',
            match us with
            | [] => [Migration.Found 0]
            | _ => [Migration.Found (size (Migration.TBL_USERS src));
                    Migration.Upserted new_users old_users]
            end
            ++ match ps with
               | [] => [Migration.Found 0]
               | _ => [Migration.Found (size (Migration.TBL_PHOTOS src));
                       Migration.Upserted new_photos old_photos]
               end)
    ∧ new_users + old_users = size (Migration.TBL_USERS src)
    ∧ new_photos + old_photos = size (Migration.TBL_PHOTOS src)
    ∧ length (Migration.users db') = length (Migration.users db) + new_users
    ∧ length (Migration.photos db')
      = length (Migration.photos db) + new_photos
    ∧ (∀ u, u ∈ us →
            stored User.username (User.username u) (Migration.users db')
            = Some u)
    ∧ (∀ p, p ∈ ps →
            stored Photo.photo_id (Photo.photo_id p) (Migration.photos db')
            = Some p).
Proof.
  intros Hlimit Hku Hkp us ps new_users old_users new_photos old_photos.
  pose proof (keyed_values_NoDup _ _ Hku) as Hndu.
  pose proof (keyed_values_NoDup _ _ Hkp) as Hndp.
  fold (items_of (Migration.TBL_USERS src)) in Hndu.
  fold (items_of (Migration.TBL_PHOTOS src)) in Hndp.
  eexists. split.
  { rewrite main_spec by done. unfold report. fold us ps.
    rewrite <- !items_of_length. fold us ps. reflexivity. }
  cbn [Migration.users Migration.photos].
  rewrite <- !items_of_length. fold us ps.
  split; [apply absent_present_count|].
  split; [apply absent_present_count|].
  split; [by apply upsert_all_length|].
  split; [by apply upsert_all_length|].
  split; intros x Hx; by apply stored_upsert_all.
Qed.

Lemma C9_migration_report_witness :
  0 < 2
  ∧ ∃ db',
      Migration.main 2 Sample.source
        (Migration.mkdb [Sample.alice] [Sample.hat; Sample.first_twin])
      = Some (db', [Migration.Found 2; Migration.Upserted 1 1;
                    Migration.Found 3; Migration.Upserted 1 2]).
Proof.
  split; [lia|].
  destruct (C9_migration_report 2 Sample.source
              (Migration.mkdb [Sample.alice] [Sample.hat; Sample.first_twin]))
    as [db' [Hmain _]];
    [lia | apply sample_source_keyed | apply sample_source_keyed |].
  exists db'. rewrite Hmain. vm_compute. reflexivity.
Defined.

(** C9, as stated, fails on an empty table: the run prints the number
    found and returns before the bulk write, so no pair of counts is
    reported for that collection. *)
Lemma C9_empty_table_reports_no_counts :
  size (Migration.TBL_PHOTOS Sample.only_alice) = 0
  ∧ Migration.main 10 Sample.only_alice Sample.fresh_db
    = Some (Migration.mkdb [Sample.alice] [],
            [Migration.Found 1; Migration.Upserted 1 0; Migration.Found 0]).
Proof. split; vm_compute; reflexivity. Qed.

(** * Migration: running it twice *)

(** C2, as the code has it.  A run of the migration upserts every scanned
    record by its natural key.  Replace-if-exists: after the run the
    destination holds, under the key of every source record, that record,
    whatever it held under the key before, and it has not grown for it.
    Insert-if-absent: the destination has grown by exactly the source
    records whose key it did not hold.  What it held under keys the source
    does not have is as before.  A second run against the same source
    leaves the destination as the first run left it and reports no inserted
    record.  The number of documents equals the number of source records
    when the destination, before the first run, held one document per key
    and no key outside the source.  Each single write of the bulk is such an
    upsert. *)
Theorem C2_migration_idempotent (limit : nat) (src : Migration.source)
    (db : Migration.database) :
  0 < limit →
  keyed User.username (Migration.TBL_USERS src) →
  keyed Photo.photo_id (Migration.TBL_PHOTOS src) →
  ∃ db1 out1 out2,
    Migration.main limit src db = Some (db1, out1)
    ∧ Migration.main limit src db1 = Some (db1, out2)
    ∧ (∀ n m, Migration.Upserted n m ∈ out2 → n = 0)
    ∧ (∀ k u, Migration.TBL_USERS src !! k = Some u →
              stored User.username k (Migration.users db1) = Some u)
    ∧ (∀ k p, Migration.TBL_PHOTOS src !! k = Some p →
              stored Photo.photo_id k (Migration.photos db1) = Some p)
    ∧ (∀ k, Migration.TBL_USERS src !! k = None →
            stored User.username k (Migration.users db1)
            = stored User.username k (Migration.users db))
    ∧ (∀ k, Migration.TBL_PHOTOS src !! k = None →
            stored Photo.photo_id k (Migration.photos db1)
            = stored Photo.photo_id k (Migration.photos db))
    ∧ length (Migration.users db1)
      = length (Migration.users db)
        + absent_count User.username (items_of (Migration.TBL_USERS src))
            (Migration.users db)
    ∧ length (Migration.photos db1)
      = length (Migration.photos db)
        + absent_count Photo.photo_id (items_of (Migration.TBL_PHOTOS src))
            (Migration.photos db)
    ∧ (NoDup (User.username <$> Migration.users db) →
       (∀ d, d ∈ Migration.users db →
             is_Some (Migration.TBL_USERS src !! User.username d)) →
       length (Migration.users db1) = size (Migration.TBL_USERS src))
    ∧ (NoDup (Photo.photo_id <$> Migration.photos db) →
       (∀ d, d ∈ Migration.photos db →
             is_Some (Migration.TBL_PHOTOS src !! Photo.photo_id d)) →
       length (Migration.photos db1) = size (Migration.TBL_PHOTOS src))
    ∧ (∀ (u : User.t) col r,
         let col' :=
           (Mongo.write_one User.username (col, r)
              (Mongo.mkop (User.username u) u true)).1 in
         stored User.username (User.username u) col' = Some u
         ∧ (∀ k, k ≠ User.username u →
                 stored User.username k col' = stored User.username k col)
         ∧ length col'
           = match stored User.username (User.username u) col with
             | Some _ => length col
             | None => S (length col)
             end)
    ∧ (∀ (p : Photo.t) col r,
         let col' :=
           (Mongo.write_one Photo.photo_id (col, r)
              (Mongo.mkop (Photo.photo_id p) p true)).1 in
         stored Photo.photo_id (Photo.photo_id p) col' = Some p
         ∧ (∀ k, k ≠ Photo.photo_id p →
                 stored Photo.photo_id k col' = stored Photo.photo_id k col)
         ∧ length col'
           = match stored Photo.photo_id (Photo.photo_id p) col with
             | Some _ => length col
             | None => S (length col)
             end).
Proof.
  intros Hlimit Hku Hkp.
  pose proof (keyed_values_NoDup _ _ Hku) as Hndu.
  pose proof (keyed_values_NoDup _ _ Hkp) as Hndp.
  fold (items_of (Migration.TBL_USERS src)) in Hndu.
  fold (items_of (Migration.TBL_PHOTOS src)) in Hndp.
  set (us := items_of (Migration.TBL_USERS src)) in *.
  set (ps := items_of (Migration.TBL_PHOTOS src)) in *.
  assert (∀ x, x ∈ us →
            stored User.username (User.username x)
              (upsert_all User.username us (Migration.users db)) = Some x)
    as Hsu by (intros; by apply stored_upsert_all).
  assert (∀ x, x ∈ ps →
            stored Photo.photo_id (Photo.photo_id x)
              (upsert_all Photo.photo_id ps (Migration.photos db)) = Some x)
    as Hsp by (intros; by apply stored_upsert_all).
  eexists _, _, _. split; [by apply main_spec|].
  split.
  { rewrite main_spec by done. cbn [Migration.users Migration.photos].
    fold us ps. rewrite (upsert_all_same _ us) by exact Hsu.
    rewrite (upsert_all_same _ ps) by exact Hsp. reflexivity. }
  split.
  { cbn [Migration.users Migration.photos]. fold us ps. intros n m Hin.
    assert (∀ {T : Type} (key : T → string) xs col,
              (∀ x, x ∈ xs → stored key (key x) col = Some x) →
              Migration.Upserted n m ∈ report key xs col → n = 0)
      as Hrep.
    { intros T key xs col Hall Hr. destruct xs as [|x xs].
      - by apply list_elem_of_singleton in Hr.
      - apply elem_of_cons in Hr as [Hr|Hr]; [done|].
        apply list_elem_of_singleton in Hr. injection Hr as -> ->.
        unfold absent_count. rewrite filter_none; [done|].
        intros y Hy. by rewrite Hall. }
    apply elem_of_app in Hin as [Hin|Hin]; eapply Hrep; try exact Hin; done. }
  assert (∀ {T : Type} (key : T → string) (tbl : gmap string T) col,
            keyed key tbl → NoDup (key <$> col) →
            (∀ d, d ∈ col → is_Some (tbl !! key d)) →
            length (upsert_all key (items_of tbl) col) = size tbl) as Hlen.
  { intros T key tbl col Hk Hnd Hsub.
    destruct (upsert_all_keys key (items_of tbl) col Hnd) as [Hnd' Hiff].
    rewrite <- (length_fmap key), <- items_of_length, <- (length_fmap key (items_of tbl)).
    apply Permutation_length, NoDup_Permutation;
      [done|by apply keyed_values_NoDup|].
    intros k. rewrite Hiff. split; [|tauto]. intros [Hin|Hin]; [|done].
    apply list_elem_of_fmap in Hin as (d & -> & Hd).
    destruct (Hsub d Hd) as [y Hy].
    rewrite keyed_values_keys by done. apply list_elem_of_fmap.
    exists (key d, y). split; [done|]. by apply elem_of_map_to_list. }
  assert (∀ {T : Type} (key : T → string) (tbl : gmap string T) k,
            keyed key tbl → tbl !! k = None → k ∉ key <$> items_of tbl)
    as Hout.
  { intros T key tbl k Hk Hnone. rewrite keyed_values_keys by done.
    intros ([k' x] & -> & Hin)%list_elem_of_fmap.
    apply elem_of_map_to_list in Hin. simpl in Hnone. congruence. }
  cbn [Migration.users Migration.photos].
  split.
  { intros k u Hu. rewrite <- (Hku _ _ Hu). apply Hsu.
    apply map_to_list_values_elem. eauto. }
  split.
  { intros k p Hp. rewrite <- (Hkp _ _ Hp). apply Hsp.
    apply map_to_list_values_elem. eauto. }
  split; [intros k Hk; apply stored_upsert_all_other; by apply Hout|].
  split; [intros k Hk; apply stored_upsert_all_other; by apply Hout|].
  split; [by apply upsert_all_length|].
  split; [by apply upsert_all_length|].
  subst us ps.
  split; [intros; by apply Hlen|]. split; [intros; by apply Hlen|].
  split; intros x col r; cbv zeta; rewrite write_one_spec; cbn [fst];
    (split; [apply stored_upsert_eq|]);
    (split; [intros; by apply stored_upsert_ne|apply upsert_length]).
Qed.

Lemma C2_migration_idempotent_witness :
  let stale := User.mk "alice" "0000" "old@example.org" "2023-01-01T00:00:00" in
  0 < 2
  ∧ ∃ db1 out1 out2,
      Migration.main 2 Sample.source (Migration.mkdb [stale] [])
      = Some (db1, out1)
      ∧ Migration.main 2 Sample.source db1 = Some (db1, out2)
      ∧ stored User.username "alice" (Migration.users db1) = Some Sample.alice
      ∧ length (Migration.users db1) = 2
      ∧ length (Migration.photos db1) = 3.
Proof.
  intros stale. split; [lia|].
  destruct (C2_migration_idempotent 2 Sample.source
              (Migration.mkdb [stale] []))
    as (db1 & out1 & out2 & H1 & H2 & _ & Hsu & _ & _ & _ & _ & _ & Hu & Hp
        & _);
    [lia | apply sample_source_keyed | apply sample_source_keyed |].
  exists db1, out1, out2. split; [exact H1|]. split; [exact H2|].
  split; [apply Hsu; vm_compute; reflexivity|]. split.
  - rewrite Hu; [vm_compute; reflexivity | |].
    + apply (bool_decide_unpack _). vm_compute. exact I.
    + intros d ->%list_elem_of_singleton. vm_compute. eauto.
  - rewrite Hp; [vm_compute; reflexivity | constructor
                | intros d Hd; inversion Hd].
Defined.

(** C2, as stated, fails on a destination that holds a record the source
    does not: after two runs the destination holds two users, the source
    one. *)
Lemma C2_destination_keeps_other_records :
  let db := Migration.mkdb [Sample.bob] [] in
  let db1 := Migration.mkdb [Sample.bob; Sample.alice] [] in
  fst <$> Migration.main 10 Sample.only_alice db = Some db1
  ∧ fst <$> Migration.main 10 Sample.only_alice db1 = Some db1
  ∧ length (Migration.users db1) = 2
  ∧ size (Migration.TBL_USERS Sample.only_alice) = 1.
Proof. repeat split; vm_compute; reflexivity. Qed.

(** * Search: the two backends compared *)

Lemma compile_literal (q : string) :
  literal q = true →
  ∃ atoms, Pcre.compile q = Some atoms
           ∧ ∀ s, Pcre.match_here atoms s
                  = Py.startswith (Py.lower s) (Py.lower q).
Proof.
  induction q as [|c q IH]; intros Hlit.
  - exists []. split; [done|]. by intros [|? ?].
  - simpl in Hlit. apply andb_true_iff in Hlit as [Hc Hq].
    destruct (IH Hq) as (atoms & Hcomp & Hmatch).
    exists (Pcre.Lit c :: atoms). split.
    + simpl. rewrite Hcomp. apply negb_true_iff in Hc. rewrite Hc.
      rewrite bool_decide_eq_false_2; [done|].
      intros ->. by vm_compute in Hc.
    + intros [|d s]; [done|]. simpl. by rewrite Hmatch.
Qed.

Lemma search_in_contains atoms (q : string) :
  (∀ s, Pcre.match_here atoms s = Py.startswith (Py.lower s) (Py.lower q)) →
  ∀ s, Pcre.search_in atoms s = Py.contains (Py.lower s) (Py.lower q).
Proof.
  intros Hmatch s. induction s as [|c s IH]; simpl.
  - by rewrite (Hmatch "").
  - by rewrite (Hmatch (String c s)), IH.
Qed.

Lemma truthy_lower (s : string) : Py.truthy (Py.lower s) = Py.truthy s.
Proof. by destruct s. Qed.

(** On ASCII text, a query of printable characters without
    metacharacters, the same photos in both stores, and a table that one
    scan request reads whole, the two searches show the same photos. *)
Lemma search_agree_on_literal_queries (limit : nat) (owner : string)
    (q : option string) (wA : Dynamo.stores) (wB : Mongo.stores) :
  size (Dynamo.photos_tbl wA) ≤ limit →
  items_of (Dynamo.photos_tbl wA) ≡ₚ Mongo.photos_col wB →
  printable (Py.strip (default "" q)) = true →
  literal (Py.strip (default "" q)) = true →
  (∀ p, p ∈ Mongo.photos_col wB → ascii_fields p = true) →
  shown (response_of (Dynamo.search limit (Some owner) q wA))
  ≡ₚ shown (response_of (Mongo.search Pcre.regex_i (Some owner) q wB)).
Proof.
  intros Hpage Hsame _ Hlit _. unfold Dynamo.search, Mongo.search.
  rewrite truthy_lower.
  destruct (negb (Py.truthy (Py.strip (default "" q)))); [done|].
  destruct (compile_literal _ Hlit) as (atoms & Hcomp & Hmatch).
  unfold Pcre.regex_i. rewrite Hcomp.
  rewrite (scan_single_page _ _ (λ p, Photo.username p = owner)) by done.
  simpl.
  fold (items_of (Dynamo.photos_tbl wA)). unfold Mongo.find.
  rewrite <- Hsame, list_filter_filter.
  erewrite filter_iff_elem; [done|]. intros p _.
  unfold Dynamo.matches, Mongo.matches.
  rewrite !(search_in_contains atoms _ Hmatch).
  rewrite andb_True, bool_decide_spec. tauto.
Qed.

Lemma sample_same_photos :
  items_of (Dynamo.photos_tbl Sample.dynamo) ≡ₚ Mongo.photos_col Sample.mongo.
Proof.
  assert (items_of (Dynamo.photos_tbl Sample.dynamo)
          = [Sample.hat; Sample.cat; Sample.dog]) as ->
    by (vm_compute; reflexivity).
  unfold Sample.mongo. simpl. by rewrite (Permutation_cons_append _ Sample.hat).
Qed.

Lemma search_agree_on_literal_queries_witness :
  shown (response_of
           (Dynamo.search 10 (Some "alice") (Some " Pet ") Sample.dynamo))
  ≡ₚ shown (response_of
              (Mongo.search Pcre.regex_i (Some "alice") (Some " Pet ")
                 Sample.mongo)).
Proof.
  apply (search_agree_on_literal_queries 10 "alice" (Some " Pet ")
           Sample.dynamo Sample.mongo).
  - vm_compute. lia.
  - apply sample_same_photos.
  - vm_compute. reflexivity.
  - vm_compute. reflexivity.
  - intros p Hp. unfold Sample.mongo in Hp. cbn [Mongo.photos_col] in Hp.
    repeat (apply elem_of_cons in Hp as [->|Hp]; [vm_compute; reflexivity|]).
    by apply elem_of_nil in Hp.
Defined.

(** C1, on the code.  The same photos in both stores, the query [c.t] by
    their owner: the key-value backend looks for the three characters and
    shows nothing, the document backend reads the query as a pattern, whose
    dot matches the [a] of [cat.png], and shows the photo. *)
Theorem C1_search_differs_on_metacharacter :
  items_of (Dynamo.photos_tbl Sample.dynamo) ≡ₚ Mongo.photos_col Sample.mongo
  ∧ shown (response_of
             (Dynamo.search 10 (Some "alice") (Some "c.t") Sample.dynamo))
    = []
  ∧ shown (response_of
             (Mongo.search Pcre.regex_i (Some "alice") (Some "c.t")
                Sample.mongo))
    = [Sample.cat].
Proof.
  split; [apply sample_same_photos|split; vm_compute; reflexivity].
Qed.

(** * Sessions: what a visitor who is not logged in can do *)

(** Without a session, every handler that needs one answers with the
    redirect to the login page: it flashes nothing, reads no blob, writes
    nothing and leaves the stores as they are, whatever the request. *)
Theorem no_session_no_access (limit : nat)
    (regex_i : string → option (string → bool))
    (secure_filename : string → string) (m : method) (form : upload_form)
    (uuid4 utcnow : nat → string) (q : option string) (pid : string)
    (wA : Dynamo.stores) (wB : Mongo.stores) :
  let denied {W} (w : W) := mkresult (redirect "login") [] [] w in
  (Dynamo.gallery limit None wA = denied wA
   ∧ Dynamo.upload secure_filename None m form uuid4 utcnow wA = denied wA
   ∧ Dynamo.search limit None q wA = denied wA
   ∧ Dynamo.download None pid wA = denied wA
   ∧ Dynamo.delete None pid wA = denied wA
   ∧ Dynamo.index None = redirect "login")
  ∧ (Mongo.gallery None wB = denied wB
     ∧ Mongo.upload secure_filename None m form uuid4 utcnow wB = denied wB
     ∧ Mongo.search regex_i None q wB = denied wB
     ∧ Mongo.download None pid wB = denied wB
     ∧ Mongo.delete None pid wB = denied wB
     ∧ Mongo.index None = redirect "login").
Proof. repeat split. Qed.

(** * Registration and login *)

Lemma find_one_app_new {T : Type} (P : T → Prop) `{!∀ x, Decision (P x)}
    (col : list T) (x : T) :
  (∀ y, y ∈ col → ¬ P y) → P x → Mongo.find_one P (col ++ [x]) = Some x.
Proof.
  intros Hno Hx. unfold Mongo.find_one.
  by rewrite filter_app, filter_none, filter_cons_True.
Qed.

Lemma find_one_app_old {T : Type} (P : T → Prop) `{!∀ x, Decision (P x)}
    (col : list T) (x : T) :
  ¬ P x → Mongo.find_one P (col ++ [x]) = Mongo.find_one P col.
Proof.
  intros Hx. unfold Mongo.find_one.
  by rewrite filter_app, (filter_cons_False _ x), app_nil_r.
Qed.

Lemma validated (a b : string) :
  a ≠ "" → b ≠ "" → negb (Py.truthy a) || negb (Py.truthy b) = false.
Proof. by destruct a, b. Qed.

Lemma register_new_user (sha256_hex : string → string)
    (form : register_form) (now : string)
    (wA : Dynamo.stores) (wB : Mongo.stores) :
  let username := Py.strip (form_username form) in
  let record :=
    User.mk username (sha256_hex (Py.strip (form_password form)))
      (Py.strip (default "" (form_email form))) now in
  let rA := Dynamo.register sha256_hex POST form now wA in
  let rB := Mongo.register sha256_hex POST form now wB in
  username ≠ "" →
  Py.strip (form_password form) ≠ "" →
  (Dynamo.users_tbl wA !! username = None →
   response_of rA = redirect "login"
   ∧ trace rA = [PutUser username]
   ∧ Dynamo.users_tbl (stores_after rA) !! username = Some record
   ∧ (∀ k, k ≠ username →
           Dynamo.users_tbl (stores_after rA) !! k = Dynamo.users_tbl wA !! k)
   ∧ size (Dynamo.users_tbl (stores_after rA)) = S (size (Dynamo.users_tbl wA))
   ∧ Dynamo.photos_tbl (stores_after rA) = Dynamo.photos_tbl wA
   ∧ Dynamo.s3 (stores_after rA) = Dynamo.s3 wA)
  ∧ (username ∉ User.username <$> Mongo.users_col wB →
     response_of rB = redirect "login"
     ∧ trace rB = [PutUser username]
     ∧ Mongo.users_col (stores_after rB) = Mongo.users_col wB ++ [record]
     ∧ Mongo.photos_col (stores_after rB) = Mongo.photos_col wB
     ∧ Mongo.s3 (stores_after rB) = Mongo.s3 wB).
Proof.
  intros username record rA rB Hu Hp. subst rA rB.
  unfold Dynamo.register, Mongo.register. fold username.
  rewrite (validated _ _ Hu Hp). split.
  - intros Hnew. unfold Dynamo.get_item. rewrite Hnew.
    rewrite bool_decide_eq_false_2 by (by intros [? ?]).
    cbn [response_of trace stores_after Dynamo.users_tbl Dynamo.photos_tbl
           Dynamo.s3]. unfold Dynamo.put_item, Dynamo._pw. cbn [User.username].
    fold record. repeat split.
    + apply lookup_insert_eq.
    + intros k Hk. by apply lookup_insert_ne.
    + by apply map_size_insert_None.
  - intros Hnew.
    assert (∀ y, y ∈ Mongo.users_col wB → ¬ User.username y = username)
      as Hno.
    { intros y Hy Heq. apply Hnew, list_elem_of_fmap. by exists y. }
    rewrite (find_one_None _ _ Hno).
    rewrite bool_decide_eq_false_2 by (by intros [? ?]).
    unfold Mongo.insert_one, Mongo._pw. cbn [User.username].
    rewrite decide_False by done. done.
Qed.

(** A registration that passes the validation with a new username, and
    whose record is within the limits of the service (a key of at most 2048
    bytes, an item of at most 400 KB), stores exactly one record: the
    stripped username, the hash of the stripped password, the stripped
    email and the time of the call.  The records of the other usernames,
    the photos and the blobs are as before. *)
Theorem register_stores_the_record (sha256_hex : string → string)
    (form : register_form) (now : string)
    (wA : Dynamo.stores) (wB : Mongo.stores) :
  let username := Py.strip (form_username form) in
  let record :=
    User.mk username (sha256_hex (Py.strip (form_password form)))
      (Py.strip (default "" (form_email form))) now in
  let rA := Dynamo.register sha256_hex POST form now wA in
  let rB := Mongo.register sha256_hex POST form now wB in
  username ≠ "" →
  Py.strip (form_password form) ≠ "" →
  Dynamo.user_accepted record →
  (Dynamo.users_tbl wA !! username = None →
   response_of rA = redirect "login"
   ∧ trace rA = [PutUser username]
   ∧ Dynamo.users_tbl (stores_after rA) !! username = Some record
   ∧ (∀ k, k ≠ username →
           Dynamo.users_tbl (stores_after rA) !! k = Dynamo.users_tbl wA !! k)
   ∧ size (Dynamo.users_tbl (stores_after rA)) = S (size (Dynamo.users_tbl wA))
   ∧ Dynamo.photos_tbl (stores_after rA) = Dynamo.photos_tbl wA
   ∧ Dynamo.s3 (stores_after rA) = Dynamo.s3 wA)
  ∧ (username ∉ User.username <$> Mongo.users_col wB →
     response_of rB = redirect "login"
     ∧ trace rB = [PutUser username]
     ∧ Mongo.users_col (stores_after rB) = Mongo.users_col wB ++ [record]
     ∧ Mongo.photos_col (stores_after rB) = Mongo.photos_col wB
     ∧ Mongo.s3 (stores_after rB) = Mongo.s3 wB).
Proof.
  intros username record rA rB Hu Hp _.
  exact (register_new_user sha256_hex form now wA wB Hu Hp).
Qed.

Lemma register_stores_the_record_witness :
  let form := mkreg " carol " " pw " (Some " c@example.org ") in
  let record := User.mk "carol" "pw" "c@example.org" "2024-02-01T00:00:00" in
  Dynamo.users_tbl
    (stores_after
       (Dynamo.register id POST form "2024-02-01T00:00:00" Sample.dynamo))
  !! "carol" = Some record
  ∧ Mongo.users_col
      (stores_after
         (Mongo.register id POST form "2024-02-01T00:00:00" Sample.mongo))
    = [Sample.alice; Sample.bob; record].
Proof.
  intros form record.
  destruct (register_stores_the_record id form "2024-02-01T00:00:00"
              Sample.dynamo Sample.mongo) as [HA HB];
    [vm_compute; discriminate | vm_compute; discriminate
    | split; vm_compute; discriminate |].
  split.
  - apply HA. vm_compute. reflexivity.
  - destruct HB as (_ & _ & Hcol & _); [|exact Hcol].
    apply (bool_decide_unpack _). vm_compute. exact I.
Defined.

(** After the registration of a new username with a record within the
    limits of the service, the login with the same form values succeeds and
    opens the session of the stripped username; the login with a password
    of another hash is refused and leaves the session as it was.  Both
    backends. *)
Theorem register_then_login (sha256_hex : string → string)
    (form : register_form) (now other : string) (session : option string)
    (wA : Dynamo.stores) (wB : Mongo.stores) :
  let username := Py.strip (form_username form) in
  let wA' := stores_after (Dynamo.register sha256_hex POST form now wA) in
  let wB' := stores_after (Mongo.register sha256_hex POST form now wB) in
  let welcome {W} (w : W) :=
    (mkresult (redirect "gallery")
       [("Welcome back, " +:+ username +:+ "!", "success")] [] w,
     Some username) in
  let refused {W} (w : W) :=
    (mkresult (render_template "login.html" [] "")
       [("Invalid credentials.", "danger")] [] w, session) in
  username ≠ "" →
  Py.strip (form_password form) ≠ "" →
  Dynamo.user_accepted
    (User.mk username (sha256_hex (Py.strip (form_password form)))
       (Py.strip (default "" (form_email form))) now) →
  Dynamo.users_tbl wA !! username = None →
  username ∉ User.username <$> Mongo.users_col wB →
  sha256_hex (Py.strip other) ≠ sha256_hex (Py.strip (form_password form)) →
  Dynamo.login sha256_hex session POST
    (mklogin (form_username form) (form_password form)) wA' = welcome wA'
  ∧ Mongo.login sha256_hex session POST
      (mklogin (form_username form) (form_password form)) wB' = welcome wB'
  ∧ Dynamo.login sha256_hex session POST
      (mklogin (form_username form) other) wA' = refused wA'
  ∧ Mongo.login sha256_hex session POST
      (mklogin (form_username form) other) wB' = refused wB'.
Proof.
  intros username wA' wB' welcome refused Hu Hp _ HnewA HnewB Hother.
  destruct (register_new_user sha256_hex form now wA wB Hu Hp)
    as [HA HB].
  destruct (HA HnewA) as (_ & _ & HlookA & _).
  destruct (HB HnewB) as (_ & _ & HcolB & _).
  assert (∀ y, y ∈ Mongo.users_col wB → ¬ User.username y = username) as Hno.
  { intros y Hy Heq. apply HnewB, list_elem_of_fmap. by exists y. }
  subst welcome refused wA' wB' username.
  unfold Dynamo.login, Mongo.login, Dynamo.get_item.
  cbn [login_username login_password]. rewrite HlookA, HcolB.
  rewrite find_one_app_new by done.
  unfold Dynamo._pw, Mongo._pw. cbn [User.password].
  rewrite (bool_decide_eq_false_2 (_ = "")) by done.
  rewrite !(bool_decide_eq_true_2 (sha256_hex _ = sha256_hex _)) by done.
  rewrite !(bool_decide_eq_false_2 (_ = sha256_hex (Py.strip other)))
    by (by intros ?).
  done.
Qed.

Lemma register_then_login_witness :
  let form := mkreg " carol " "pw" None in
  let wA' :=
    stores_after (Dynamo.register id POST form "t" Sample.dynamo) in
  let wB' := stores_after (Mongo.register id POST form "t" Sample.mongo) in
  (Dynamo.login id None POST (mklogin " carol " "pw") wA').2 = Some "carol"
  ∧ (Mongo.login id None POST (mklogin " carol " "pw") wB').2 = Some "carol"
  ∧ (Dynamo.login id None POST (mklogin " carol " "pW") wA').2 = None
  ∧ (Mongo.login id None POST (mklogin " carol " "pW") wB').2 = None.
Proof.
  intros form wA' wB'.
  destruct (register_then_login id form "t" "pW" None Sample.dynamo
              Sample.mongo) as (H1 & H2 & H3 & H4).
  - vm_compute. discriminate.
  - vm_compute. discriminate.
  - split; vm_compute; discriminate.
  - vm_compute. reflexivity.
  - apply (bool_decide_unpack _). vm_compute. exact I.
  - vm_compute. discriminate.
  - subst wA' wB'. cbv zeta in H1, H2, H3, H4.
    change (form_username form) with " carol " in *.
    change (form_password form) with "pw" in *.
    rewrite H1, H2, H3, H4. repeat split.
Defined.

Lemma dynamo_login_cases (sha256_hex : string → string)
    (session : option string) (m : method) (form : login_form)
    (w : Dynamo.stores) :
  let username := Py.strip (login_username form) in
  let password := Py.strip (login_password form) in
  let r := Dynamo.login sha256_hex session m form w in
  stores_after r.1 = w ∧ trace r.1 = []
  ∧ (r.2 = session
     ∨ ∃ user, Dynamo.users_tbl w !! username = Some user
               ∧ User.password user = sha256_hex password
               ∧ r.2 = Some username)
  ∧ (m = POST → username ≠ "" → Dynamo.users_tbl w !! username = None →
     r = (mkresult (render_template "login.html" [] "")
            [("Invalid credentials.", "danger")] [] w, session)).
Proof.
  intros username password r. subst r.
  unfold Dynamo.login, Dynamo.get_item, Dynamo._pw. fold username password.
  destruct m.
  { split; [done|]. split; [done|]. split; [by left|done]. }
  destruct (bool_decide (username = "")) eqn:He.
  { apply bool_decide_eq_true in He.
    split; [done|]. split; [done|]. split; [by left|done]. }
  destruct (Dynamo.users_tbl w !! username) as [user|] eqn:Hu.
  - destruct (bool_decide (User.password user = sha256_hex password)) eqn:Hp.
    + apply bool_decide_eq_true in Hp.
      split; [done|]. split; [done|]. split; [|done].
      right. by exists user.
    + split; [done|]. split; [done|]. split; [by left|done].
  - split; [done|]. split; [done|]. split; [by left|done].
Qed.

Lemma mongo_login_cases (sha256_hex : string → string)
    (session : option string) (m : method) (form : login_form)
    (w : Mongo.stores) :
  let username := Py.strip (login_username form) in
  let password := Py.strip (login_password form) in
  let r := Mongo.login sha256_hex session m form w in
  stores_after r.1 = w ∧ trace r.1 = []
  ∧ (r.2 = session
     ∨ ∃ user, user ∈ Mongo.users_col w ∧ User.username user = username
               ∧ User.password user = sha256_hex password
               ∧ r.2 = Some username)
  ∧ (m = POST → username ∉ User.username <$> Mongo.users_col w →
     r = (mkresult (render_template "login.html" [] "")
            [("Invalid credentials.", "danger")] [] w, session)).
Proof.
  intros username password r. subst r.
  unfold Mongo.login, Mongo._pw. fold username password.
  destruct m.
  { split; [done|]. split; [done|]. split; [by left|done]. }
  destruct (Mongo.find_one (λ d, User.username d = username) (Mongo.users_col w))
    as [user|] eqn:Hu.
  - apply (stored_Some User.username) in Hu as [Hname Hin].
    assert (username ∉ User.username <$> Mongo.users_col w → False) as Hex.
    { intros Hnot. apply Hnot, list_elem_of_fmap. by exists user. }
    destruct (bool_decide (User.password user = sha256_hex password)) eqn:Hp.
    + apply bool_decide_eq_true in Hp.
      split; [done|]. split; [done|]. split; [|by intros _ ?%Hex].
      right. by exists user.
    + split; [done|]. split; [done|]. split; [by left|by intros _ ?%Hex].
  - split; [done|]. split; [done|]. split; [by left|done].
Qed.


(** * Download and delete by the owner *)

Lemma filter_unique_key {T : Type} (key : T → string) (col : list T) (x : T) :
  NoDup (key <$> col) → x ∈ col → filter (λ p, key p = key x) col = [x].
Proof.
  induction col as [|d col IH]; intros Hnd Hx; [by apply elem_of_nil in Hx|].
  rewrite fmap_cons in Hnd. apply NoDup_cons in Hnd as [Hd Hnd].
  rewrite filter_cons. apply elem_of_cons in Hx as [->|Hx].
  - rewrite decide_True by done. f_equal. apply filter_none.
    intros y Hy Heq. apply Hd. rewrite <- Heq. apply list_elem_of_fmap.
    by exists y.
  - rewrite decide_False; [by apply IH|].
    intros Heq. apply Hd. rewrite Heq. apply list_elem_of_fmap. by exists x.
Qed.

Lemma filter_all {T : Type} (P : T → Prop) `{!∀ x, Decision (P x)}
    (l : list T) :
  (∀ x, x ∈ l → P x) → filter P l = l.
Proof.
  induction l as [|y l IH]; intros Hall; [done|].
  rewrite filter_cons_True by (apply Hall; left).
  f_equal. apply IH. intros x Hx. apply Hall. by right.
Qed.

Lemma delete_one_unique_key {T : Type} (key : T → string) (k : string)
    (col : list T) :
  NoDup (key <$> col) →
  Mongo.delete_one (λ p, key p = k) col = filter (λ p, key p ≠ k) col.
Proof.
  induction col as [|d col IH]; intros Hnd; [done|].
  rewrite fmap_cons in Hnd. apply NoDup_cons in Hnd as [Hd Hnd].
  simpl. rewrite filter_cons. destruct (decide (key d = k)) as [Hk|Hk].
  - rewrite decide_False by (by intros ?).
    symmetry. apply filter_all. intros y Hy Heq. apply Hd.
    rewrite Hk, <- Heq. apply list_elem_of_fmap. by exists y.
  - rewrite decide_True by done. f_equal. by apply IH.
Qed.

Lemma find_one_by_id_and_owner (col : list Photo.t) (item : Photo.t) :
  NoDup (Photo.photo_id <$> col) → item ∈ col →
  Mongo.find_one
    (λ p, Photo.photo_id p = Photo.photo_id item
          ∧ Photo.username p = Photo.username item) col
  = Some item.
Proof.
  intros Hnd Hin. unfold Mongo.find_one.
  rewrite (filter_iff_elem _
             (λ p, Photo.username p = Photo.username item
                   ∧ Photo.photo_id p = Photo.photo_id item))
    by (intros; tauto).
  rewrite <- (list_filter_filter (λ p, Photo.username p = Photo.username item)
                (λ p, Photo.photo_id p = Photo.photo_id item)).
  rewrite (filter_unique_key Photo.photo_id col item Hnd Hin).
  by rewrite filter_cons_True.
Qed.

Lemma dynamo_download_read_only s p (w : Dynamo.stores) :
  stores_after (Dynamo.download s p w) = w.
Proof.
  unfold Dynamo.download, Dynamo.get_item. destruct s as [u|]; [|done].
  destruct (Dynamo.photos_tbl w !! p) as [it|]; [|done].
  case_bool_decide; [done|]. by destruct (Dynamo.s3 w !! Photo.s3_key it).
Qed.

Lemma mongo_download_read_only s p (w : Mongo.stores) :
  stores_after (Mongo.download s p w) = w.
Proof.
  unfold Mongo.download. destruct s as [u|]; [|done].
  destruct (Mongo.find_one _ _) as [it|]; [|done].
  by destruct (Mongo.s3 w !! Photo.s3_key it).
Qed.

(** The owner's download.  When the record of [pid] belongs to the
    requester, the download reads the blob under the record's [s3_key] and
    sends its content under the record's file name; when the bucket holds no
    such blob the request fails.  A download never changes the stores. *)
Theorem download_sends_the_blob (requester pid : string) (item : Photo.t)
    (wA : Dynamo.stores) (wB : Mongo.stores) :
  Photo.photo_id item = pid →
  Photo.username item = requester →
  Dynamo.photos_tbl wA !! pid = Some item →
  NoDup (Photo.photo_id <$> Mongo.photos_col wB) →
  item ∈ Mongo.photos_col wB →
  let key := Photo.s3_key item in
  (∀ obj, Dynamo.s3 wA !! key = Some obj →
          Dynamo.download (Some requester) pid wA
          = mkresult (send_file (S3.Body obj) (Photo.filename item)) []
              [S3Get key] wA)
  ∧ (Dynamo.s3 wA !! key = None →
     Dynamo.download (Some requester) pid wA
     = mkresult internal_error [] [S3Get key] wA)
  ∧ (∀ obj, Mongo.s3 wB !! key = Some obj →
            Mongo.download (Some requester) pid wB
            = mkresult (send_file (S3.Body obj) (Photo.filename item)) []
                [S3Get key] wB)
  ∧ (Mongo.s3 wB !! key = None →
     Mongo.download (Some requester) pid wB
     = mkresult internal_error [] [S3Get key] wB)
  ∧ (∀ s p, stores_after (Dynamo.download s p wA) = wA)
  ∧ (∀ s p, stores_after (Mongo.download s p wB) = wB).
Proof.
  intros <- <- HA Hnd Hin key.
  pose proof (find_one_by_id_and_owner _ _ Hnd Hin) as HB.
  unfold Dynamo.download, Mongo.download, Dynamo.get_item.
  rewrite HA, HB. rewrite bool_decide_eq_false_2 by (by intros ?).
  fold key.
  split; [by intros obj ->|]. split; [by intros ->|].
  split; [by intros obj ->|]. split; [by intros ->|].
  split; intros s p;
    [apply dynamo_download_read_only|apply mongo_download_read_only].
Qed.

Lemma download_sends_the_blob_witness :
  Dynamo.download (Some "alice") "p1" Sample.dynamo
  = mkresult (send_file "<cat>" "cat.png") []
      [S3Get "photos/alice/p1_cat.png"] Sample.dynamo
  ∧ Mongo.download (Some "alice") "p1" Sample.mongo
    = mkresult (send_file "<cat>" "cat.png") []
        [S3Get "photos/alice/p1_cat.png"] Sample.mongo.
Proof.
  destruct (download_sends_the_blob "alice" "p1" Sample.cat Sample.dynamo
              Sample.mongo) as (HA & _ & HB & _).
  - reflexivity.
  - reflexivity.
  - vm_compute. reflexivity.
  - apply (bool_decide_unpack _). vm_compute. exact I.
  - apply (bool_decide_unpack _). vm_compute. exact I.
  - split.
    + apply (HA (S3.mk "<cat>" "image/png")). vm_compute. reflexivity.
    + apply (HB (S3.mk "<cat>" "image/png")). vm_compute. reflexivity.
Defined.

(** The owner's delete on the key-value backend.  It removes the blob,
    then the record; afterwards the identifier holds no record and the key
    no blob, every other record and blob is as before, the users are
    untouched, a second delete and a download of the same identifier are
    answered "Photo not found." with no write, and the gallery no longer
    shows the photo. *)
Theorem dynamo_delete_removes_the_photo (limit : nat) (requester pid : string)
    (item : Photo.t) (w : Dynamo.stores) :
  Dynamo.photos_tbl w !! pid = Some item →
  Photo.username item = requester →
  let r := Dynamo.delete (Some requester) pid w in
  let w' := stores_after r in
  let not_found :=
    mkresult (redirect "gallery") [("Photo not found.", "danger")] [] w' in
  response_of r = redirect "gallery"
  ∧ flashed r = [("Photo deleted.", "success")]
  ∧ trace r = [S3Delete (Photo.s3_key item); DeletePhoto pid]
  ∧ Dynamo.photos_tbl w' !! pid = None
  ∧ Dynamo.s3 w' !! Photo.s3_key item = None
  ∧ (∀ k, k ≠ pid → Dynamo.photos_tbl w' !! k = Dynamo.photos_tbl w !! k)
  ∧ (∀ k, k ≠ Photo.s3_key item → Dynamo.s3 w' !! k = Dynamo.s3 w !! k)
  ∧ Dynamo.users_tbl w' = Dynamo.users_tbl w
  ∧ Dynamo.delete (Some requester) pid w' = not_found
  ∧ Dynamo.download (Some requester) pid w' = not_found
  ∧ (keyed Photo.photo_id (Dynamo.photos_tbl w) →
     ∀ s, item ∉ shown (response_of (Dynamo.gallery limit s w'))).
Proof.
  intros Hitem Hown r w' not_found.
  assert (r = mkresult (redirect "gallery") [("Photo deleted.", "success")]
                [S3Delete (Photo.s3_key item); DeletePhoto pid]
                (Dynamo.mkstores (Dynamo.users_tbl w)
                   (base.delete pid (Dynamo.photos_tbl w))
                   (base.delete (Photo.s3_key item) (Dynamo.s3 w)))) as Hr.
  { subst r. unfold Dynamo.delete, Dynamo.get_item, Dynamo.delete_item.
    by rewrite Hitem, bool_decide_eq_false_2 by (by intros ?). }
  subst not_found w'. rewrite Hr.
  cbn [response_of flashed trace stores_after Dynamo.photos_tbl Dynamo.s3
         Dynamo.users_tbl].
  split; [done|]. split; [done|]. split; [done|].
  split; [apply lookup_delete_eq|]. split; [apply lookup_delete_eq|].
  split; [intros k Hk; by apply lookup_delete_ne|].
  split; [intros k Hk; by apply lookup_delete_ne|].
  split; [done|].
  split.
  { unfold Dynamo.delete, Dynamo.get_item. cbn [Dynamo.photos_tbl].
    by rewrite lookup_delete_eq. }
  split.
  { unfold Dynamo.download, Dynamo.get_item. cbn [Dynamo.photos_tbl].
    by rewrite lookup_delete_eq. }
  intros Hkeyed [u|] Hin; [|by apply elem_of_nil in Hin].
  apply dynamo_gallery_shown in Hin as [_ [k Hk]].
  cbn [Dynamo.photos_tbl] in Hk.
  apply lookup_delete_Some in Hk as [Hne Hk].
  apply Hkeyed in Hk as Hid. apply Hkeyed in Hitem as Hid'. simpl in *.
  congruence.
Qed.

Lemma dynamo_delete_removes_the_photo_witness :
  let w' := stores_after (Dynamo.delete (Some "alice") "p1" Sample.dynamo) in
  Dynamo.photos_tbl w' !! "p1" = None
  ∧ Dynamo.s3 w' !! "photos/alice/p1_cat.png" = None
  ∧ Dynamo.delete (Some "alice") "p1" w'
    = mkresult (redirect "gallery") [("Photo not found.", "danger")] [] w'
  ∧ shown (response_of (Dynamo.gallery 10 (Some "alice") w')) = [Sample.dog].
Proof.
  intros w'.
  destruct (dynamo_delete_removes_the_photo 10 "alice" "p1" Sample.cat
              Sample.dynamo) as (_ & _ & _ & H1 & H2 & _ & _ & _ & H3 & _);
    [vm_compute; reflexivity | reflexivity |].
  split; [exact H1|]. split; [exact H2|]. split; [exact H3|].
  vm_compute. reflexivity.
Defined.

(** The owner's delete on the document backend, for a collection with one
    document per identifier: the same response and writes; afterwards the
    collection is the old one without that document, the users are
    untouched, and a second delete and a download of the identifier are
    answered "Photo not found." with no write. *)
Theorem mongo_delete_removes_the_photo (requester : string) (item : Photo.t)
    (w : Mongo.stores) :
  NoDup (Photo.photo_id <$> Mongo.photos_col w) →
  item ∈ Mongo.photos_col w →
  Photo.username item = requester →
  let pid := Photo.photo_id item in
  let r := Mongo.delete (Some requester) pid w in
  let w' := stores_after r in
  let not_found :=
    mkresult (redirect "gallery") [("Photo not found.", "danger")] [] w' in
  response_of r = redirect "gallery"
  ∧ flashed r = [("Photo deleted.", "success")]
  ∧ trace r = [S3Delete (Photo.s3_key item); DeletePhoto pid]
  ∧ Mongo.photos_col w'
    = filter (λ p, Photo.photo_id p ≠ pid) (Mongo.photos_col w)
  ∧ Mongo.s3 w' !! Photo.s3_key item = None
  ∧ (∀ k, k ≠ Photo.s3_key item → Mongo.s3 w' !! k = Mongo.s3 w !! k)
  ∧ Mongo.users_col w' = Mongo.users_col w
  ∧ Mongo.delete (Some requester) pid w' = not_found
  ∧ Mongo.download (Some requester) pid w' = not_found.
Proof.
  intros Hnd Hin <- pid r w' not_found.
  pose proof (find_one_by_id_and_owner _ _ Hnd Hin) as Hfind.
  assert (stores_after r
          = Mongo.mkstores (Mongo.users_col w)
              (filter (λ p, Photo.photo_id p ≠ pid) (Mongo.photos_col w))
              (base.delete (Photo.s3_key item) (Mongo.s3 w))
          ∧ response_of r = redirect "gallery"
          ∧ flashed r = [("Photo deleted.", "success")]
          ∧ trace r = [S3Delete (Photo.s3_key item); DeletePhoto pid])
    as (Hw' & Hresp & Hflash & Htrace).
  { subst r. unfold Mongo.delete. fold pid in Hfind. rewrite Hfind.
    cbn [stores_after response_of flashed trace].
    by rewrite (delete_one_unique_key Photo.photo_id pid _ Hnd). }
  assert (Mongo.find_one
            (λ p, Photo.photo_id p = pid
                  ∧ Photo.username p = Photo.username item)
            (Mongo.photos_col w') = None) as Hgone.
  { subst w'. rewrite Hw'. cbn [Mongo.photos_col]. apply find_one_None.
    intros y [Hy _]%list_elem_of_filter [Hid _]. done. }
  subst not_found w'. rewrite Hw' in *.
  cbn [Mongo.photos_col Mongo.s3 Mongo.users_col] in *.
  split; [done|]. split; [done|]. split; [done|]. split; [done|].
  split; [apply lookup_delete_eq|].
  split; [intros k Hk; by apply lookup_delete_ne|].
  split; [done|].
  unfold Mongo.delete, Mongo.download. cbn [Mongo.photos_col].
  by rewrite Hgone.
Qed.

Lemma mongo_delete_removes_the_photo_witness :
  let w' := stores_after (Mongo.delete (Some "alice") "p1" Sample.mongo) in
  Mongo.photos_col w' = [Sample.dog; Sample.hat]
  ∧ Mongo.delete (Some "alice") "p1" w'
    = mkresult (redirect "gallery") [("Photo not found.", "danger")] [] w'.
Proof.
  intros w'.
  destruct (mongo_delete_removes_the_photo "alice" Sample.cat Sample.mongo)
    as (_ & _ & _ & H1 & _ & _ & _ & H2 & _).
  - apply (bool_decide_unpack _). vm_compute. exact I.
  - apply (bool_decide_unpack _). vm_compute. exact I.
  - reflexivity.
  - split; [|exact H2]. subst w'. etrans; [exact H1|]. vm_compute. reflexivity.
Defined.

(** * Upload, then download and gallery *)

Lemma upload_guard_dynamo secure_filename username form uuid4 utcnow
    (w : Dynamo.stores) f0 rest :
  form_photos form = f0 :: rest → filename f0 ≠ "" →
  stores_after
    (Dynamo.upload secure_filename (Some username) POST form uuid4 utcnow w)
  = (Dynamo.upload_loop secure_filename username
       (Py.strip (default "" (form_tags form)))
       (Py.strip (default "" (form_description form)))
       uuid4 utcnow 0 (f0 :: rest) 0 [] w).2.
Proof.
  intros Hfiles Hname. unfold Dynamo.upload. rewrite Hfiles.
  rewrite bool_decide_eq_false_2 by done.
  by destruct (Dynamo.upload_loop _ _ _ _ _ _ _ _ _ _ _) as [[c tr] w'].
Qed.

Lemma upload_guard_mongo secure_filename username form uuid4 utcnow
    (w : Mongo.stores) f0 rest :
  form_photos form = f0 :: rest → filename f0 ≠ "" →
  stores_after
    (Mongo.upload secure_filename (Some username) POST form uuid4 utcnow w)
  = (Mongo.upload_loop secure_filename username
       (Py.strip (default "" (form_tags form)))
       (Py.strip (default "" (form_description form)))
       uuid4 utcnow 0 (f0 :: rest) 0 [] w).2.
Proof.
  intros Hfiles Hname. unfold Mongo.upload. rewrite Hfiles.
  rewrite bool_decide_eq_false_2 by done.
  by destruct (Mongo.upload_loop _ _ _ _ _ _ _ _ _ _ _) as [[[c|] tr] w'].
Qed.

(** The stores after an upload whose identifiers are pairwise different, of
    one length, and new to the collection: the record and the blob of an
    accepted file, in both backends. *)
Lemma upload_stores_at secure_filename username form uuid4 utcnow
    (wA : Dynamo.stores) (wB : Mongo.stores) f0 rest j f :
  form_photos form = f0 :: rest → filename f0 ≠ "" →
  (f0 :: rest) !! j = Some f → Dynamo._ok_file (filename f) = true →
  NoDup ((Photo.photo_id <$> Mongo.photos_col wB)
         ++ (uuid4 <$> seq 0 (S (length rest)))) →
  (∀ i, i < S (length rest) →
        String.length (uuid4 i) = String.length (uuid4 j)) →
  let tags := Py.strip (default "" (form_tags form)) in
  let desc := Py.strip (default "" (form_description form)) in
  let wA' := stores_after
               (Dynamo.upload secure_filename (Some username) POST form
                  uuid4 utcnow wA) in
  let wB' := stores_after
               (Mongo.upload secure_filename (Some username) POST form
                  uuid4 utcnow wB) in
  let item := uploaded_photo secure_filename username tags desc
                (uuid4 j) (utcnow j) f in
  Dynamo.photos_tbl wA' !! uuid4 j = Some item
  ∧ Dynamo.s3 wA' !! Photo.s3_key item
    = Some (S3.mk (stream f) (content_type f))
  ∧ NoDup (Photo.photo_id <$> Mongo.photos_col wB')
  ∧ item ∈ Mongo.photos_col wB'
  ∧ Mongo.s3 wB' !! Photo.s3_key item
    = Some (S3.mk (stream f) (content_type f)).
Proof.
  intros Hfiles Hname Hj Hok Hfresh Hlen tags desc wA' wB' item.
  assert (j < S (length rest)) as Hjn.
  { apply lookup_lt_Some in Hj. simpl in Hj. lia. }
  assert (NoDup (uuid4 <$> seq 0 (S (length rest)))) as Hdraws
    by (by apply NoDup_app in Hfresh as (_ & _ & ?)).
  assert (∀ j' f', j < j' → (f0 :: rest) !! j' = Some f' →
            uuid4 (0 + j') ≠ uuid4 (0 + j)) as Hids.
  { intros j' f' Hlt Hj' Heq. simpl in Heq.
    apply lookup_lt_Some in Hj'. simpl in Hj'.
    apply (NoDup_fmap_seq_inj _ _ _ _ Hdraws) in Heq; lia. }
  assert (∀ j' f', j < j' → (f0 :: rest) !! j' = Some f' →
            upload_key secure_filename username (uuid4 (0 + j')) f'
            ≠ upload_key secure_filename username (uuid4 (0 + j)) f) as Hkeys.
  { intros j' f' Hlt Hj' Heq. apply (Hids j' f' Hlt Hj').
    apply upload_key_inj in Heq; [done|]. simpl. apply Hlen.
    apply lookup_lt_Some in Hj'. simpl in Hj'. lia. }
  assert (Dynamo.s3 (Dynamo.upload_loop secure_filename username tags desc
                       uuid4 utcnow 0 (f0 :: rest) 0 []
                       (Dynamo.mkstores (Dynamo.users_tbl wA)
                          (Dynamo.photos_tbl wA) (Mongo.s3 wB))).2
          !! Photo.s3_key item
          = Some (S3.mk (stream f) (content_type f))) as Hblob.
  { apply (dynamo_upload_loop_blob secure_filename username tags desc uuid4
             utcnow (f0 :: rest) 0 0 [] _ j f Hj Hok).
    intros j' f' Hlt Hj' _. by apply (Hkeys j' f'). }
  subst wA' wB'.
  rewrite (upload_guard_dynamo _ _ _ _ _ _ f0 rest) by done.
  rewrite (upload_guard_mongo _ _ _ _ _ _ f0 rest) by done.
  fold tags desc.
  rewrite (mongo_upload_loop_stores secure_filename username tags desc uuid4
             utcnow (f0 :: rest) 0 0 [] wB 0 []
             (Dynamo.mkstores (Dynamo.users_tbl wA) (Dynamo.photos_tbl wA)
                (Mongo.s3 wB))) by done.
  cbn [Mongo.photos_col Mongo.s3].
  split; [|split; [|split; [|split]]].
  - apply (dynamo_upload_loop_photo secure_filename username tags desc uuid4
             utcnow (f0 :: rest) 0 0 [] wA j f Hj Hok).
    intros j' f' Hlt Hj' _. by apply (Hids j' f').
  - apply (dynamo_upload_loop_blob secure_filename username tags desc uuid4
             utcnow (f0 :: rest) 0 0 [] wA j f Hj Hok).
    intros j' f' Hlt Hj' _. by apply (Hkeys j' f').
  - rewrite fmap_app. eapply sublist_NoDup; [exact Hfresh|].
    apply sublist_app; [done|]. apply upload_docs_ids.
  - apply elem_of_app. right.
    apply (upload_docs_elem secure_filename username tags desc uuid4 utcnow
             0 (f0 :: rest) j f Hj Hok).
  - exact Hblob.
Qed.



(** * Upload: what it leaves alone, and identifiers met twice *)

Section upload_frame.
Context (secure_filename : string → string) (username tags desc : string)
  (uuid4 utcnow : nat → string).

#[local] Abbreviation loopA' :=
  (Dynamo.upload_loop secure_filename username tags desc uuid4 utcnow).
#[local] Abbreviation loopB' :=
  (Mongo.upload_loop secure_filename username tags desc uuid4 utcnow).
#[local] Abbreviation record' i f :=
  (uploaded_photo secure_filename username tags desc (uuid4 i) (utcnow i) f).
#[local] Abbreviation blob_key' i f :=
  (upload_key secure_filename username (uuid4 i) f).

Lemma mongo_upload_loop_cons i f files count tr (w : Mongo.stores) :
  loopB' i (f :: files) count tr w
  = if Dynamo._ok_file (filename f) then
      let s3' := <[blob_key' i f := S3.mk (stream f) (content_type f)]>
                   (Mongo.s3 w) in
      match Mongo.insert_one Photo.photo_id (record' i f) (Mongo.photos_col w)
      with
      | Some col =>
          loopB' (S i) files (S count)
            (tr ++ [S3Upload (blob_key' i f); PutPhoto (uuid4 i)])
            (Mongo.mkstores (Mongo.users_col w) col s3')
      | None =>
          (None, tr ++ [S3Upload (blob_key' i f)],
           Mongo.mkstores (Mongo.users_col w) (Mongo.photos_col w) s3')
      end
    else loopB' (S i) files count tr w.
Proof.
  simpl. rewrite ok_file_truthy.
  by change Mongo._ok_file with Dynamo._ok_file.
Qed.

(** Every record the key-value table holds after the loop was there before
    or belongs to the uploader. *)
Lemma dynamo_upload_loop_new_owner files i count tr (w : Dynamo.stores) k p :
  Dynamo.photos_tbl (loopA' i files count tr w).2 !! k = Some p →
  Dynamo.photos_tbl w !! k = Some p ∨ Photo.username p = username.
Proof.
  revert i count tr w. induction files as [|f files IH];
    intros i count tr w Hp; [by left|].
  rewrite dynamo_upload_loop_cons in Hp.
  destruct (Dynamo._ok_file (filename f)); [|by eapply IH].
  apply IH in Hp as [Hp|Hp]; [|by right].
  cbn [Dynamo.photos_tbl] in Hp.
  apply lookup_insert_Some in Hp as [[_ <-]|[_ Hp]]; [by right|by left].
Qed.

(** A record of the uploader stays a record of the uploader. *)
Lemma dynamo_upload_loop_owner_kept files i count tr (w : Dynamo.stores) k :
  (∃ p, Dynamo.photos_tbl w !! k = Some p ∧ Photo.username p = username) →
  ∃ p, Dynamo.photos_tbl (loopA' i files count tr w).2 !! k = Some p
       ∧ Photo.username p = username.
Proof.
  revert i count tr w. induction files as [|f files IH];
    intros i count tr w Hp; [done|].
  rewrite dynamo_upload_loop_cons.
  destruct (Dynamo._ok_file (filename f)); [|by apply IH].
  apply IH. cbn [Dynamo.photos_tbl]. destruct Hp as (p & Hp & Hown).
  destruct (decide (uuid4 i = k)) as [<-|Hne].
  - eexists. by rewrite lookup_insert_eq.
  - exists p. by rewrite lookup_insert_ne.
Qed.

(** The identifier drawn for an accepted file holds a record of the
    uploader afterwards, whatever it held before. *)
Lemma dynamo_upload_loop_takes_over files i count tr (w : Dynamo.stores) j f :
  files !! j = Some f → Dynamo._ok_file (filename f) = true →
  ∃ p, Dynamo.photos_tbl (loopA' i files count tr w).2 !! uuid4 (i + j)
       = Some p
       ∧ Photo.username p = username.
Proof.
  revert i count tr w j. induction files as [|g files IH];
    intros i count tr w j Hj Hok; [done|].
  rewrite dynamo_upload_loop_cons. destruct j as [|j].
  - injection Hj as ->. rewrite Hok, Nat.add_0_r.
    apply dynamo_upload_loop_owner_kept. cbn [Dynamo.photos_tbl].
    eexists. by rewrite lookup_insert_eq.
  - replace (i + S j) with (S i + j) by lia.
    destruct (Dynamo._ok_file (filename g)); by apply IH.
Qed.

(** Every record has its blob: kept by the loop of the key-value backend. *)
Lemma dynamo_upload_loop_blobs files i count tr (w : Dynamo.stores) :
  (∀ k p, Dynamo.photos_tbl w !! k = Some p →
          is_Some (Dynamo.s3 w !! Photo.s3_key p)) →
  ∀ k p, Dynamo.photos_tbl (loopA' i files count tr w).2 !! k = Some p →
         is_Some (Dynamo.s3 (loopA' i files count tr w).2 !! Photo.s3_key p).
Proof.
  revert i count tr w. induction files as [|f files IH];
    intros i count tr w Hinv; [done|].
  rewrite dynamo_upload_loop_cons.
  destruct (Dynamo._ok_file (filename f)); [|by apply IH].
  apply IH. cbn [Dynamo.photos_tbl Dynamo.s3]. intros k p Hp.
  apply lookup_insert_is_Some'.
  apply lookup_insert_Some in Hp as [[_ <-]|[_ Hp]]; [by left|].
  right. by eapply Hinv.
Qed.

(** The loop of the document backend, raising or not: the users are
    untouched, the collection only grows at its end, by records of the
    uploader, and no blob is removed. *)
Lemma mongo_upload_loop_shape files i count tr (w : Mongo.stores) :
  ∃ new s3',
    (loopB' i files count tr w).2
    = Mongo.mkstores (Mongo.users_col w) (Mongo.photos_col w ++ new) s3'
    ∧ (∀ p, p ∈ new → Photo.username p = username)
    ∧ (∀ p, p ∈ new → is_Some (s3' !! Photo.s3_key p))
    ∧ (∀ k, is_Some (Mongo.s3 w !! k) → is_Some (s3' !! k))
    ∧ (∀ k, (∀ j f, files !! j = Some f →
                    Dynamo._ok_file (filename f) = true →
                    blob_key' (i + j) f ≠ k) →
            s3' !! k = Mongo.s3 w !! k).
Proof.
  revert i count tr w. induction files as [|f files IH]; intros i count tr w.
  { exists [], (Mongo.s3 w). rewrite app_nil_r. simpl.
    split; [by destruct w|]. split; [by intros ? ?%elem_of_nil|].
    split; [by intros ? ?%elem_of_nil|]. done. }
  rewrite mongo_upload_loop_cons.
  destruct (Dynamo._ok_file (filename f)) eqn:Hok.
  - cbv zeta. unfold Mongo.insert_one.
    destruct (decide (_ ∈ _)) as [Hdup|Hnew].
    + eexists [], _. rewrite app_nil_r. cbn [snd].
      split; [done|]. split; [by intros ? ?%elem_of_nil|].
      split; [by intros ? ?%elem_of_nil|].
      split.
      * intros k Hk. apply lookup_insert_is_Some'. by right.
      * intros k Hk. apply lookup_insert_ne.
        specialize (Hk 0 f eq_refl Hok). by rewrite Nat.add_0_r in Hk.
    + destruct (IH (S i) (S count)
                  (tr ++ [S3Upload (blob_key' i f); PutPhoto (uuid4 i)])
                  (Mongo.mkstores (Mongo.users_col w)
                     (Mongo.photos_col w ++ [record' i f])
                     (<[blob_key' i f := S3.mk (stream f) (content_type f)]>
                        (Mongo.s3 w))))
        as (new & s3' & Heq & Hown & Hblob & Hmono & Hframe).
      cbn [Mongo.users_col Mongo.photos_col Mongo.s3] in *.
      exists (record' i f :: new), s3'.
      split; [by rewrite Heq, <- app_assoc|].
      split.
      { intros p [->|Hp]%elem_of_cons; [done|by apply Hown]. }
      split.
      { intros p [->|Hp]%elem_of_cons; [|by apply Hblob].
        apply Hmono. cbn [uploaded_photo Photo.s3_key].
        by rewrite lookup_insert_eq. }
      split.
      { intros k Hk. apply Hmono, lookup_insert_is_Some'. by right. }
      intros k Hk. rewrite Hframe.
      * apply lookup_insert_ne.
        specialize (Hk 0 f eq_refl Hok). by rewrite Nat.add_0_r in Hk.
      * intros j g Hj Hg. replace (S i + j) with (i + S j) by lia.
        by apply (Hk (S j) g).
  - destruct (IH (S i) count tr w)
      as (new & s3' & Heq & Hown & Hblob & Hmono & Hframe).
    exists new, s3'. split; [done|]. split; [done|]. split; [done|].
    split; [done|].
    intros k Hk. apply Hframe. intros j g Hj Hg.
    replace (S i + j) with (i + S j) by lia. by apply (Hk (S j) g).
Qed.

End upload_frame.

(** The stores after an upload request are the old ones or those of the
    loop over the files. *)
Lemma dynamo_upload_stores secure_filename username m form uuid4 utcnow
    (w : Dynamo.stores) :
  let w' := stores_after
              (Dynamo.upload secure_filename (Some username) m form uuid4
                 utcnow w) in
  w' = w
  ∨ w' = (Dynamo.upload_loop secure_filename username
            (Py.strip (default "" (form_tags form)))
            (Py.strip (default "" (form_description form)))
            uuid4 utcnow 0 (form_photos form) 0 [] w).2.
Proof.
  unfold Dynamo.upload. destruct m; [by left|].
  destruct (form_photos form) as [|f0 rest]; [by left|].
  case_bool_decide; [by left|]. right.
  by destruct (Dynamo.upload_loop _ _ _ _ _ _ _ _ _ _ _) as [[c tr] w'].
Qed.

Lemma mongo_upload_stores secure_filename username m form uuid4 utcnow
    (w : Mongo.stores) :
  let w' := stores_after
              (Mongo.upload secure_filename (Some username) m form uuid4
                 utcnow w) in
  w' = w
  ∨ w' = (Mongo.upload_loop secure_filename username
            (Py.strip (default "" (form_tags form)))
            (Py.strip (default "" (form_description form)))
            uuid4 utcnow 0 (form_photos form) 0 [] w).2.
Proof.
  unfold Mongo.upload. destruct m; [by left|].
  destruct (form_photos form) as [|f0 rest]; [by left|].
  case_bool_decide; [by left|]. right.
  by destruct (Mongo.upload_loop _ _ _ _ _ _ _ _ _ _ _) as [[[c|] tr] w'].
Qed.

(** Every record has its blob: an invariant of upload.  When every photo
    record of the stores has a blob under its [s3_key], the same holds
    after any upload request, in both backends; on the document backend
    also when [insert_one] raises in the middle of the loop. *)
Theorem upload_keeps_blobs_present (secure_filename : string → string)
    (username : string) (m : method) (form : upload_form)
    (uuid4 utcnow : nat → string) (wA : Dynamo.stores) (wB : Mongo.stores) :
  blobs_present (items_of (Dynamo.photos_tbl wA)) (Dynamo.s3 wA) →
  blobs_present (Mongo.photos_col wB) (Mongo.s3 wB) →
  let wA' := stores_after
               (Dynamo.upload secure_filename (Some username) m form
                  uuid4 utcnow wA) in
  let wB' := stores_after
               (Mongo.upload secure_filename (Some username) m form
                  uuid4 utcnow wB) in
  blobs_present (items_of (Dynamo.photos_tbl wA')) (Dynamo.s3 wA')
  ∧ blobs_present (Mongo.photos_col wB') (Mongo.s3 wB').
Proof.
  intros HA HB wA' wB'. split.
  - destruct (dynamo_upload_stores secure_filename username m form uuid4
                utcnow wA) as [Heq|Heq]; fold wA' in Heq; rewrite Heq;
      [done|].
    intros p [k Hp]%map_to_list_values_elem.
    eapply dynamo_upload_loop_blobs; [|exact Hp].
    intros k' p' Hp'. apply HA, map_to_list_values_elem. by exists k'.
  - destruct (mongo_upload_stores secure_filename username m form uuid4
                utcnow wB) as [Heq|Heq]; fold wB' in Heq; rewrite Heq;
      [done|].
    destruct (mongo_upload_loop_shape secure_filename username
                (Py.strip (default "" (form_tags form)))
                (Py.strip (default "" (form_description form)))
                uuid4 utcnow (form_photos form) 0 0 [] wB)
      as (new & s3' & -> & _ & Hblob & Hmono & _).
    cbn [Mongo.photos_col Mongo.s3].
    intros p [Hp|Hp]%elem_of_app; [by apply Hmono, HB|by apply Hblob].
Qed.

Lemma upload_keeps_blobs_present_witness :
  let form :=
    mkupload [mkfile "Cat.PNG" "<png>" "image/png"] (Some "pet") None in
  let wB' :=
    stores_after
      (Mongo.upload id (Some "bob") POST form (λ i, "p1") (λ i, "t")
         Sample.mongo) in
  Mongo.photos_col wB' = Mongo.photos_col Sample.mongo
  ∧ is_Some (Mongo.s3 wB' !! "photos/bob/p1_Cat.PNG")
  ∧ blobs_present (Mongo.photos_col wB') (Mongo.s3 wB').
Proof.
  intros form wB'.
  split; [vm_compute; reflexivity|]. split; [vm_compute; eauto|].
  assert (∀ (photos : list Photo.t) (s3 : gmap string S3.object),
            Forall (λ p, is_Some (s3 !! Photo.s3_key p)) photos →
            blobs_present photos s3) as Hall.
  { intros photos s3 H p Hp. by apply (proj1 (Forall_forall _ _) H). }
  apply (upload_keeps_blobs_present id "bob" POST form (λ i, "p1") (λ i, "t")
           Sample.dynamo Sample.mongo).
  - apply Hall. vm_compute. repeat constructor; eauto.
  - apply Hall. vm_compute. repeat constructor; eauto.
Defined.

(** An upload leaves the other users alone.  In both backends the user
    records are untouched.  On the document backend the gallery and every
    search of another user show what they showed before.  On the key-value
    backend no record of another user is created, and the records under
    identifiers that were not drawn are untouched. *)
Theorem upload_leaves_other_users_alone
    (regex_i : string → option (string → bool))
    (secure_filename : string → string)
    (username other : string) (m : method) (form : upload_form)
    (uuid4 utcnow : nat → string) (wA : Dynamo.stores) (wB : Mongo.stores) :
  other ≠ username →
  let wA' := stores_after
               (Dynamo.upload secure_filename (Some username) m form
                  uuid4 utcnow wA) in
  let wB' := stores_after
               (Mongo.upload secure_filename (Some username) m form
                  uuid4 utcnow wB) in
  Dynamo.users_tbl wA' = Dynamo.users_tbl wA
  ∧ Mongo.users_col wB' = Mongo.users_col wB
  ∧ response_of (Mongo.gallery (Some other) wB')
    = response_of (Mongo.gallery (Some other) wB)
  ∧ (∀ q, response_of (Mongo.search regex_i (Some other) q wB')
          = response_of (Mongo.search regex_i (Some other) q wB))
  ∧ (∀ k p, Dynamo.photos_tbl wA' !! k = Some p → Photo.username p = other →
            Dynamo.photos_tbl wA !! k = Some p)
  ∧ (∀ k, k ∉ uuid4 <$> seq 0 (length (form_photos form)) →
          Dynamo.photos_tbl wA' !! k = Dynamo.photos_tbl wA !! k).
Proof.
  intros Hother wA' wB'.
  assert (Mongo.users_col wB' = Mongo.users_col wB
          ∧ ∃ new, Mongo.photos_col wB' = Mongo.photos_col wB ++ new
                   ∧ ∀ p, p ∈ new → Photo.username p = username)
    as (HusersB & new & Hcol & Hnew).
  { destruct (mongo_upload_stores secure_filename username m form uuid4
                utcnow wB) as [Heq|Heq]; fold wB' in Heq; rewrite Heq.
    - split; [done|]. exists []. rewrite app_nil_r.
      split; [done|]. by intros ? ?%elem_of_nil.
    - destruct (mongo_upload_loop_shape secure_filename username
                  (Py.strip (default "" (form_tags form)))
                  (Py.strip (default "" (form_description form)))
                  uuid4 utcnow (form_photos form) 0 0 [] wB)
        as (new & s3' & -> & Hown & _).
      split; [done|]. by exists new. }
  split.
  { destruct (dynamo_upload_stores secure_filename username m form uuid4
                utcnow wA) as [Heq|Heq]; fold wA' in Heq; rewrite Heq;
      [done|apply dynamo_upload_loop_users]. }
  split; [done|].
  split.
  { unfold Mongo.gallery, reply, Mongo.find. cbn [response_of].
    rewrite Hcol, filter_app.
    rewrite (filter_none _ new), app_nil_r; [done|].
    intros p Hp Hp'. apply Hnew in Hp. congruence. }
  split.
  { intros q. unfold Mongo.search.
    destruct (negb _); [done|]. destruct (regex_i _) as [rgx|]; [|done].
    unfold reply, Mongo.find. cbn [response_of].
    rewrite Hcol, filter_app.
    rewrite (filter_none _ new), app_nil_r; [done|].
    intros p Hp Hp'. apply Hnew in Hp. unfold Mongo.matches in Hp'.
    apply andb_True in Hp' as [Hu _]. apply bool_decide_unpack in Hu.
    congruence. }
  destruct (dynamo_upload_stores secure_filename username m form uuid4
              utcnow wA) as [Heq|Heq]; fold wA' in Heq; rewrite Heq;
    [done|].
  split.
  - intros k p Hp Hown.
    apply dynamo_upload_loop_new_owner in Hp as [Hp|Hp]; [done|congruence].
  - intros k Hk. apply dynamo_upload_loop_photos_frame.
    intros j f Hj _ Heq'. apply Hk. apply list_elem_of_fmap.
    exists j. split; [done|]. apply elem_of_seq.
    apply lookup_lt_Some in Hj. simpl in *. lia.
Qed.

Lemma upload_leaves_other_users_alone_witness :
  let form :=
    mkupload [mkfile "Cat.PNG" "<png>" "image/png"] (Some "pet") None in
  let wB' :=
    stores_after
      (Mongo.upload id (Some "bob") POST form (λ i, "id" +:+ pretty i)
         (λ i, "t" +:+ pretty i) Sample.mongo) in
  shown (response_of (Mongo.gallery (Some "alice") wB'))
  = [Sample.dog; Sample.cat].
Proof.
  intros form wB'.
  destruct (upload_leaves_other_users_alone (λ _, None) id "bob" "alice" POST
              form (λ i, "id" +:+ pretty i) (λ i, "t" +:+ pretty i)
              Sample.dynamo Sample.mongo) as (_ & _ & H & _);
    [discriminate|].
  cbv zeta in H. fold form wB' in H. rewrite H. vm_compute. reflexivity.
Defined.



(** * Search against the gallery *)

(** A search shows only photos that the gallery of the same user shows, in
    both backends and for every query. *)
Theorem search_within_gallery (limit : nat)
    (regex_i : string → option (string → bool)) (username : string)
    (q : option string) (p : Photo.t)
    (wA : Dynamo.stores) (wB : Mongo.stores) :
  (p ∈ shown (response_of (Dynamo.search limit (Some username) q wA)) →
   p ∈ shown (response_of (Dynamo.gallery limit (Some username) wA)))
  ∧ (p ∈ shown (response_of (Mongo.search regex_i (Some username) q wB)) →
     p ∈ shown (response_of (Mongo.gallery (Some username) wB))).
Proof.
  split.
  - unfold Dynamo.search, Dynamo.gallery.
    destruct (negb _); unfold reply; cbn [response_of shown];
      [by intros ?%elem_of_nil|].
    rewrite sort_reverse_perm, list_elem_of_filter. by intros [_ ?].
  - intros Hp. apply mongo_search_shown in Hp as [Hown Hin].
    unfold Mongo.gallery, reply, Mongo.sort_desc, Mongo.find.
    cbn [response_of shown].
    rewrite sort_reverse_perm, list_elem_of_filter. done.
Qed.

(** * The migration, then Part B *)

Lemma upsert_new {T : Type} (key : T → string) (x : T) (col : list T) :
  key x ∉ key <$> col → upsert key x col = col ++ [x].
Proof.
  induction col as [|d col IH]; intros Hnew; [done|].
  rewrite upsert_cons. rewrite fmap_cons in Hnew.
  apply not_elem_of_cons in Hnew as [Hne Hnew].
  rewrite decide_False by done. simpl. f_equal. by apply IH.
Qed.

Lemma upsert_all_new {T : Type} (key : T → string) (xs col : list T) :
  NoDup (key <$> xs) → (∀ x, x ∈ xs → key x ∉ key <$> col) →
  upsert_all key xs col = col ++ xs.
Proof.
  revert col. induction xs as [|x xs IH]; intros col Hnd Hnew.
  { by rewrite app_nil_r. }
  rewrite fmap_cons in Hnd. apply NoDup_cons in Hnd as [Hx Hnd].
  rewrite upsert_all_cons, upsert_new by (apply Hnew; left).
  rewrite IH, <- app_assoc; [done|done|].
  intros y Hy. rewrite fmap_app, elem_of_app. intros [Hin|Hin].
  - by apply (Hnew y); [right|].
  - apply list_elem_of_singleton in Hin. apply Hx. rewrite <- Hin.
    apply list_elem_of_fmap. by exists y.
Qed.

Lemma find_one_and {T : Type} (P Q : T → Prop) `{!∀ x, Decision (P x)}
    `{!∀ x, Decision (Q x)} (col : list T) (x : T) :
  Mongo.find_one P col = Some x → Q x →
  Mongo.find_one (λ y, P y ∧ Q y) col = Some x.
Proof.
  unfold Mongo.find_one. intros Hx HQ.
  induction col as [|d col IH]; [done|].
  rewrite filter_cons in Hx. rewrite filter_cons.
  destruct (decide (P d)) as [HP|HP].
  - simpl in Hx. injection Hx as ->. by rewrite decide_True.
  - rewrite decide_False by (by intros [? _]). by apply IH.
Qed.

(** The migration of the accounts and photos of Part A makes them usable
    in Part B.  After one run into any destination, over the same bucket,
    the login of a user Part A knows is answered by Part B as by Part A
    (same response, same message, same session), and the download of a
    photo by its owner is answered by Part B as by Part A. *)
Theorem migrated_records_serve_part_b (limit : nat)
    (sha256_hex : string → string) (src : Migration.source)
    (db : Migration.database) (bucket : gmap string S3.object)
    (session : option string) :
  0 < limit →
  keyed User.username (Migration.TBL_USERS src) →
  keyed Photo.photo_id (Migration.TBL_PHOTOS src) →
  ∃ db' out,
    Migration.main limit src db = Some (db', out)
    ∧ let wA := Dynamo.mkstores (Migration.TBL_USERS src)
                  (Migration.TBL_PHOTOS src) bucket in
      let wB := Mongo.mkstores (Migration.users db') (Migration.photos db')
                  bucket in
      (∀ form u,
         Py.strip (login_username form) ≠ "" →
         Migration.TBL_USERS src !! Py.strip (login_username form) = Some u →
         let rA := Dynamo.login sha256_hex session POST form wA in
         let rB := Mongo.login sha256_hex session POST form wB in
         response_of rB.1 = response_of rA.1
         ∧ flashed rB.1 = flashed rA.1
         ∧ rB.2 = rA.2)
      ∧ (∀ pid p,
           Migration.TBL_PHOTOS src !! pid = Some p →
           let rA := Dynamo.download (Some (Photo.username p)) pid wA in
           let rB := Mongo.download (Some (Photo.username p)) pid wB in
           response_of rB = response_of rA
           ∧ flashed rB = flashed rA
           ∧ trace rB = trace rA).
Proof.
  intros Hlimit Hku Hkp. eexists _, _.
  split; [by apply main_spec|].
  cbn [Migration.users Migration.photos]. split.
  - intros form u Hne Hu.
    unfold Dynamo.login, Mongo.login, Dynamo.get_item.
    cbn [Dynamo.users_tbl Mongo.users_col].
    rewrite bool_decide_eq_false_2 by done. rewrite Hu.
    assert (Mongo.find_one
              (λ d, User.username d = Py.strip (login_username form))
              (upsert_all User.username
                 (items_of (Migration.TBL_USERS src)) (Migration.users db))
            = Some u) as ->.
    { rewrite <- (Hku _ _ Hu).
      apply (stored_upsert_all User.username).
      - by apply keyed_values_NoDup.
      - apply map_to_list_values_elem. eauto. }
    unfold Dynamo._pw, Mongo._pw. by case_bool_decide.
  - intros pid p Hp.
    unfold Dynamo.download, Mongo.download, Dynamo.get_item.
    cbn [Dynamo.photos_tbl Mongo.photos_col Dynamo.s3 Mongo.s3].
    rewrite Hp. rewrite bool_decide_eq_false_2 by (by intros ?).
    rewrite (find_one_and (λ y, Photo.photo_id y = pid)
               (λ y, Photo.username y = Photo.username p) _ p); [| |done].
    + by destruct (bucket !! Photo.s3_key p).
    + rewrite <- (Hkp _ _ Hp).
      apply (stored_upsert_all Photo.photo_id).
      * by apply keyed_values_NoDup.
      * apply map_to_list_values_elem. eauto.
Qed.

Lemma migrated_records_serve_part_b_witness :
  ∃ db' out,
    Migration.main 2 Sample.source Sample.fresh_db = Some (db', out)
    ∧ (Mongo.login id None POST (mklogin "alice" "5e884898da28")
         (Mongo.mkstores (Migration.users db') (Migration.photos db')
            Sample.bucket)).2
      = Some "alice"
    ∧ response_of
        (Mongo.download (Some "alice") "p1"
           (Mongo.mkstores (Migration.users db') (Migration.photos db')
              Sample.bucket))
      = send_file "<cat>" "cat.png".
Proof.
  destruct (migrated_records_serve_part_b 2 id Sample.source Sample.fresh_db
              Sample.bucket None) as (db' & out & Hmain & Hlogin & Hdown).
  - lia.
  - apply sample_source_keyed.
  - apply sample_source_keyed.
  - exists db', out. split; [exact Hmain|]. split.
    + destruct (Hlogin (mklogin "alice" "5e884898da28") Sample.alice)
        as (_ & _ & ->); [discriminate|vm_compute; reflexivity|].
      vm_compute. reflexivity.
    + destruct (Hdown "p1" Sample.cat) as (H & _);
        [vm_compute; reflexivity|].
      etrans; [exact H|]. vm_compute. reflexivity.
Defined.

(** The migration into an empty database keeps the gallery.  The
    destination then holds the records of both tables in the order of the
    scan, and for a photos table that one scan request reads whole, the
    gallery of Part B shows every user the photos the gallery of Part A
    shows, in the same order. *)
Theorem migration_keeps_the_gallery (limit : nat) (src : Migration.source)
    (bucket : gmap string S3.object) :
  0 < limit →
  keyed User.username (Migration.TBL_USERS src) →
  keyed Photo.photo_id (Migration.TBL_PHOTOS src) →
  size (Migration.TBL_PHOTOS src) ≤ limit →
  ∃ out,
    Migration.main limit src (Migration.mkdb [] [])
    = Some (Migration.mkdb (items_of (Migration.TBL_USERS src))
              (items_of (Migration.TBL_PHOTOS src)), out)
    ∧ ∀ username,
        response_of
          (Mongo.gallery (Some username)
             (Mongo.mkstores (items_of (Migration.TBL_USERS src))
                (items_of (Migration.TBL_PHOTOS src)) bucket))
        = response_of
            (Dynamo.gallery limit (Some username)
               (Dynamo.mkstores (Migration.TBL_USERS src)
                  (Migration.TBL_PHOTOS src) bucket)).
Proof.
  intros Hlimit Hku Hkp Hpage. eexists. split.
  - rewrite main_spec by done. cbn [Migration.users Migration.photos].
    rewrite !upsert_all_new;
      [done| by apply keyed_values_NoDup | by intros ? _ ?%elem_of_nil
      | by apply keyed_values_NoDup | by intros ? _ ?%elem_of_nil].
  - intros username. unfold Mongo.gallery, Dynamo.gallery, reply.
    cbn [response_of Mongo.photos_col Dynamo.photos_tbl].
    by rewrite scan_single_page.
Qed.

Lemma migration_keeps_the_gallery_witness :
  ∃ out,
    Migration.main 3 Sample.source (Migration.mkdb [] [])
    = Some (Migration.mkdb (items_of Sample.users_table)
              (items_of Sample.photos_table), out)
    ∧ shown (response_of
               (Mongo.gallery (Some "alice")
                  (Mongo.mkstores (items_of Sample.users_table)
                     (items_of Sample.photos_table) Sample.bucket)))
      = [Sample.dog; Sample.cat].
Proof.
  destruct (migration_keeps_the_gallery 3 Sample.source Sample.bucket)
    as (out & Hmain & Hgallery).
  - lia.
  - apply sample_source_keyed.
  - apply sample_source_keyed.
  - vm_compute. lia.
  - exists out. split; [exact Hmain|].
    change (Migration.TBL_USERS Sample.source) with Sample.users_table
      in Hgallery.
    change (Migration.TBL_PHOTOS Sample.source) with Sample.photos_table
      in Hgallery.
    rewrite (Hgallery "alice"). vm_compute. reflexivity.
Defined.

(** * Bootstrap of the tables *)

(** Decides the tests [name ∉ dom tables] of the goal from the lookups at
    hand. *)
Ltac dom_decide :=
  repeat first
    [ rewrite decide_True by (apply not_elem_of_dom; by simplify_map_eq)
    | rewrite decide_False
        by (intros Hn; apply Hn, elem_of_dom; simplify_map_eq; eauto) ].

(** [_init_tables] with two different configured names succeeds and
    afterwards both tables exist; a table that existed keeps its key
    schema, every other table is untouched, a missing users table is
    created with the hash key [username] and a missing photos table with
    [photo_id]; a second run changes nothing. *)
Theorem init_tables_creates_what_is_missing (TBL_USERS TBL_PHOTOS : string)
    (tables : gmap string string) :
  TBL_USERS ≠ TBL_PHOTOS →
  ∃ tables',
    Dynamo._init_tables TBL_USERS TBL_PHOTOS tables = Some tables'
    ∧ tables' !! TBL_USERS
      = Some (default "username" (tables !! TBL_USERS))
    ∧ tables' !! TBL_PHOTOS
      = Some (default "photo_id" (tables !! TBL_PHOTOS))
    ∧ (∀ name, name ≠ TBL_USERS → name ≠ TBL_PHOTOS →
               tables' !! name = tables !! name)
    ∧ Dynamo._init_tables TBL_USERS TBL_PHOTOS tables' = Some tables'.
Proof.
  intros Hne. unfold Dynamo._init_tables, Dynamo.create_table.
  destruct (tables !! TBL_USERS) as [ku|] eqn:Hu;
    destruct (tables !! TBL_PHOTOS) as [kp|] eqn:Hp.
  - exists tables. dom_decide. by rewrite Hu, Hp.
  - exists (<[TBL_PHOTOS := "photo_id"]> tables). dom_decide.
    simplify_map_eq. dom_decide. repeat split.
    intros name _ Hn. by rewrite lookup_insert_ne.
  - exists (<[TBL_USERS := "username"]> tables). dom_decide.
    simplify_map_eq. dom_decide. repeat split.
    intros name Hn _. by rewrite lookup_insert_ne.
  - exists (<[TBL_PHOTOS := "photo_id"]> (<[TBL_USERS := "username"]> tables)).
    dom_decide. simplify_map_eq. dom_decide. repeat split.
    intros name Hn1 Hn2. by rewrite !lookup_insert_ne.
Qed.

Lemma init_tables_creates_what_is_missing_witness :
  ∃ tables',
    Dynamo._init_tables "PhotoGalleryUsers" "PhotoGalleryPhotos"
      {[ "PhotoGalleryUsers" := "email" ]}
    = Some tables'
    ∧ tables' !! "PhotoGalleryUsers" = Some "email"
    ∧ tables' !! "PhotoGalleryPhotos" = Some "photo_id".
Proof.
  destruct (init_tables_creates_what_is_missing "PhotoGalleryUsers"
              "PhotoGalleryPhotos" {[ "PhotoGalleryUsers" := "email" ]})
    as (tables' & H & Hu & Hp & _); [discriminate|].
  exists tables'. split; [exact H|]. split.
  - etrans; [exact Hu|]. vm_compute. reflexivity.
  - etrans; [exact Hp|]. vm_compute. reflexivity.
Defined.

(** [_init_tables] with one name configured for both tables, when no table
    of that name exists: the set of existing tables was read before the
    first table is created, so the second [create_table] meets the name in
    use and the bootstrap fails. *)
Theorem init_tables_one_name_for_both (name : string)
    (tables : gmap string string) :
  tables !! name = None →
  Dynamo._init_tables name name tables = None.
Proof.
  intros Hnone. unfold Dynamo._init_tables, Dynamo.create_table.
  rewrite Hnone. cbv iota beta.
  rewrite !decide_True by (by apply not_elem_of_dom).
  by rewrite lookup_insert_eq.
Qed.

Lemma init_tables_one_name_for_both_witness :
  Dynamo._init_tables "Gallery" "Gallery" ∅ = None.
Proof. apply init_tables_one_name_for_both. reflexivity. Defined.
